(** * tgbot: the update records, the file download and the long poller

    A shallow embedding of [main.go].  The Go structs become records, a
    nil-able pointer becomes an [option], Go's [int] and [int64] become [Z],
    and the one stateful function of the file, [Bot.GetFile], becomes a
    function over an explicit program state: the bot, a heap of [File]
    objects addressed by location (the [*File] argument is a pointer, so two
    calls on the same pointer see each other's writes), and the log of the
    calls made to the outside world. *)

From Stdlib Require Import ZArith Lia Ascii String.
From stdpp Require Import gmap strings list.

Open Scope string_scope.
Open Scope list_scope.
Open Scope Z_scope.

(** ** Inert payload records

    Only the fields whose types are declared in [main.go] are kept; the
    media attachments of [Message] ([Audio], [Document], [Photo], ...), the
    floating point coordinates of [Location] and the self-referential
    pointers ([ReplyTo], [PinnedMessage]) are payload that no operation of
    the file reads. *)

Record User := mkUser {
  User_ID : Z;
  User_FirstName : string;
  User_LastName : string;
  User_Username : string;
  User_LanguageCode : string;
  User_IsBot : bool;
  User_CanJoinGroups : bool;
  User_CanReadMessages : bool;
  User_SupportsInline : bool
}.

Definition EntityType := string.
Definition ParseMode := string.
Definition PollType := string.
Definition ChatType := string.

Definition EntityMention : EntityType := "mention".
Definition EntityTMention : EntityType := "text_mention".
Definition EntityHashtag : EntityType := "hashtag".
Definition EntityCashtag : EntityType := "cashtag".
Definition EntityCommand : EntityType := "bot_command".
Definition EntityURL : EntityType := "url".
Definition EntityEmail : EntityType := "email".
Definition EntityPhone : EntityType := "phone_number".
Definition EntityBold : EntityType := "bold".
Definition EntityItalic : EntityType := "italic".
Definition EntityUnderline : EntityType := "underline".
Definition EntityStrikethrough : EntityType := "strikethrough".
Definition EntityCode : EntityType := "code".
Definition EntityCodeBlock : EntityType := "pre".
Definition EntityTextLink : EntityType := "text_link".

Record MessageEntity := mkMessageEntity {
  MessageEntity_Type : EntityType;
  MessageEntity_Offset : Z;
  MessageEntity_Length : Z;
  MessageEntity_URL : string;
  MessageEntity_User : option User;
  MessageEntity_Language : string
}.

Record ChatPhoto := mkChatPhoto {
  SmallFileID : string;
  SmallFileUniqueID : string;
  BigFileID : string;
  BigFileUniqueID : string
}.

Record Rights := mkRights {
  CanBeEdited : bool;
  CanChangeInfo : bool;
  CanPostMessages : bool;
  CanEditMessages : bool;
  CanDeleteMessages : bool;
  CanInviteUsers : bool;
  CanRestrictMembers : bool;
  CanPinMessages : bool;
  CanPromoteMembers : bool;
  CanSendMessages : bool;
  CanSendMedia : bool;
  CanSendPolls : bool;
  CanSendOther : bool;
  CanAddPreviews : bool;
  CanManageVoiceChats : bool;
  CanManageChat : bool
}.

Record Chat := mkChat {
  Chat_ID : Z;
  Chat_Type : ChatType;
  Chat_Title : string;
  Chat_FirstName : string;
  Chat_LastName : string;
  Chat_Username : string;
  Chat_Still : bool;
  Chat_Bio : string;
  Chat_Photo : option ChatPhoto;
  Chat_Description : string;
  Chat_InviteLink : string;
  Chat_Permissions : option Rights;
  Chat_SlowMode : Z;
  Chat_StickerSet : string;
  Chat_CanSetStickerSet : bool;
  Chat_LinkedChatID : Z
}.

Record PollOption := mkPollOption {
  PollOption_Text : string;
  PollOption_VoterCount : Z
}.

Record Poll := mkPoll {
  Poll_ID : string;
  Poll_Type : PollType;
  Poll_Question : string;
  Poll_Options : list PollOption;
  Poll_VoterCount : Z;
  Poll_Closed : bool;
  Poll_CorrectOption : Z;
  Poll_MultipleAnswers : bool;
  Poll_Explanation : string;
  Poll_ParseMode : ParseMode;
  Poll_Entities : list MessageEntity;
  Poll_Anonymous : bool;
  Poll_OpenPeriod : Z;
  Poll_CloseUnixdate : Z
}.

Record PollAnswer := mkPollAnswer {
  PollAnswer_PollID : string;
  PollAnswer_User : User;
  PollAnswer_Options : list Z
}.

Record Message := mkMessage {
  Message_ID : Z;
  Message_InlineID : string;
  Message_Sender : option User;
  Message_Unixtime : Z;
  Message_Chat : option Chat;
  Message_SenderChat : option Chat;
  Message_OriginalSender : option User;
  Message_OriginalChat : option Chat;
  Message_OriginalMessageID : Z;
  Message_OriginalSignature : string;
  Message_OriginalSenderName : string;
  Message_OriginalUnixtime : Z;
  Message_Via : option User;
  Message_LastEdit : Z;
  Message_AlbumID : string;
  Message_Signature : string;
  Message_Text : string;
  Message_Payload : string;
  Message_Entities : list MessageEntity;
  Message_Caption : string;
  Message_CaptionEntities : list MessageEntity;
  Message_Poll : option Poll;
  Message_UserJoined : option User;
  Message_UserLeft : option User;
  Message_NewGroupTitle : string;
  Message_UsersJoined : list User;
  Message_GroupPhotoDeleted : bool;
  Message_GroupCreated : bool;
  Message_SuperGroupCreated : bool;
  Message_ChannelCreated : bool;
  Message_MigrateTo : Z;
  Message_MigrateFrom : Z;
  Message_ConnectedWebsite : string
}.

Record Callback := mkCallback {
  Callback_ID : string;
  Callback_Sender : option User;
  Callback_Message : option Message;
  Callback_MessageID : string;
  Callback_Data : string
}.

Record Query := mkQuery {
  Query_ID : string;
  Query_From : User;
  Query_Text : string;
  Query_Offset : string;
  Query_ChatType : string
}.

Record ChosenInlineResult := mkChosenInlineResult {
  ChosenInlineResult_From : User;
  ChosenInlineResult_ResultID : string;
  ChosenInlineResult_Query : string;
  ChosenInlineResult_MessageID : string
}.

Record ShippingAddress := mkShippingAddress {
  CountryCode : string;
  State : string;
  City : string;
  StreetLine1 : string;
  StreetLine2 : string;
  PostCode : string
}.

Record ShippingQuery := mkShippingQuery {
  ShippingQuery_Sender : option User;
  ShippingQuery_ID : string;
  ShippingQuery_Payload : string;
  ShippingQuery_Address : ShippingAddress
}.

Record Order := mkOrder {
  Order_Name : string;
  Order_PhoneNumber : string;
  Order_Email : string;
  Order_Address : ShippingAddress
}.

Record PreCheckoutQuery := mkPreCheckoutQuery {
  PreCheckoutQuery_Sender : option User;
  PreCheckoutQuery_ID : string;
  PreCheckoutQuery_Currency : string;
  PreCheckoutQuery_Payload : string;
  PreCheckoutQuery_Total : Z;
  PreCheckoutQuery_OptionID : string;
  PreCheckoutQuery_Order : Order
}.

Record ChatMemberUpdated := mkChatMemberUpdated {
  ChatMemberUpdated_Chat : Chat;
  ChatMemberUpdated_From : User;
  ChatMemberUpdated_Unixtime : Z
}.

(** ** Update

    The struct of [main.go]: an [update_id] and thirteen pointers, each of
    which the JSON decoder leaves nil when its key is absent. *)

Record Update := mkUpdate {
  Update_ID : Z;
  Update_Message : option Message;
  Update_EditedMessage : option Message;
  Update_ChannelPost : option Message;
  Update_EditedChannelPost : option Message;
  Update_Callback : option Callback;
  Update_Query : option Query;
  Update_ChosenInlineResult : option ChosenInlineResult;
  Update_ShippingQuery : option ShippingQuery;
  Update_PreCheckoutQuery : option PreCheckoutQuery;
  Update_Poll : option Poll;
  Update_PollAnswer : option PollAnswer;
  Update_MyChatMember : option ChatMemberUpdated;
  Update_ChatMember : option ChatMemberUpdated
}.

(** Whether a pointer field is non-nil. *)
Definition populated {A} (o : option A) : bool :=
  match o with Some _ => true | None => false end.

(** The thirteen variant fields of an update, in declaration order, each
    reduced to whether it is populated. *)
Definition variant_flags (u : Update) : list bool :=
  [ populated (Update_Message u);
    populated (Update_EditedMessage u);
    populated (Update_ChannelPost u);
    populated (Update_EditedChannelPost u);
    populated (Update_Callback u);
    populated (Update_Query u);
    populated (Update_ChosenInlineResult u);
    populated (Update_ShippingQuery u);
    populated (Update_PreCheckoutQuery u);
    populated (Update_Poll u);
    populated (Update_PollAnswer u);
    populated (Update_MyChatMember u);
    populated (Update_ChatMember u) ].

Definition count_true (l : list bool) : nat :=
  length (filter (λ b : bool, b = true) l).

Definition populated_count (u : Update) : nat := count_true (variant_flags u).

(** ** Bot, File and the outside world *)

(** A byte stream of the environment ([io.Reader], [io.ReadCloser]),
    identified by a handle. *)
Definition Stream := nat.

Record File := mkFile {
  FileID : string;
  UniqueID : string;
  FileSize : Z;
  FilePath : string;    (* file on telegram server *)
  FileLocal : string;   (* file on local file system *)
  FileURL : string;     (* file on the internet *)
  FileReader : option Stream   (* file backed with io.Reader *)
}.

(** [file.FilePath = p]: the only assignment [GetFile] makes. *)
Definition set_FilePath (p : string) (f : File) : File :=
  {| FileID := FileID f; UniqueID := UniqueID f; FileSize := FileSize f;
     FilePath := p; FileLocal := FileLocal f; FileURL := FileURL f;
     FileReader := FileReader f |}.

(** The exported fields of the bot.  Its [Poller] is the interface modelled
    further down; its unexported HTTP client is the collaborator [Do] of
    [GetFile]. *)
Record Bot := mkBot {
  Me : option User;
  Token : string;
  URL : string;
  Updates : list Update   (* the buffered contents of the channel *)
}.

(** Go's [error]: a nil-able interface value, so [option error] below. *)
Inductive error :=
| ErrCollaborator (msg : string)   (* returned by FileByID, net/http, ... *)
| ErrErrorf (msg : string).        (* built by errors.Errorf *)

Definition Errorf_status (status : string) : error :=
  ErrErrorf ("telebot: expected status 200 but got " +:+ status).

Definition error_message (e : error) : string :=
  match e with ErrCollaborator m => m | ErrErrorf m => m end.

Definition MethodGet : string := "GET".
Definition StatusOK : Z := 200.

Record Request := mkRequest {
  Method : string;
  Request_URL : string
}.

Record Response := mkResponse {
  Status : string;      (* e.g. "404 Not Found" *)
  StatusCode : Z;
  Body : Stream
}.

(** What [GetFile] does to the outside world, in program order. *)
Inductive IOEvent :=
| CallFileByID (fileID : string)   (* the metadata call *)
| CallDo (req : Request)           (* b.client.Do(req) *)
| CallClose (body : Stream).       (* resp.Body.Close() *)

Definition loc := positive.

Record ProgState := mkProgState {
  bot : Bot;
  files : gmap loc File;
  io : list IOEvent
}.

Definition log (ev : IOEvent) (σ : ProgState) : ProgState :=
  {| bot := bot σ; files := files σ; io := io σ ++ [ev] |}.

Definition store (l : loc) (f : File) (σ : ProgState) : ProgState :=
  {| bot := bot σ; files := <[l := f]> (files σ); io := io σ |}.

(** A call either returns Go's pair [(io.ReadCloser, error)] or panics (a
    nil pointer is dereferenced). *)
Inductive Outcome :=
| Return (rc : option Stream) (err : option error)
| Panic.

(** The URL the code composes for the binary fetch. *)
Definition file_endpoint (b : Bot) (path : string) : string :=
  URL b +:+ "/file/bot" +:+ Token b +:+ "/" +:+ path.

(** The number of metadata calls in a log. *)
Definition is_metadata_call (ev : IOEvent) : bool :=
  match ev with CallFileByID _ => true | _ => false end.

Definition metadata_calls (evs : list IOEvent) : nat :=
  length (filter (λ ev, is_metadata_call ev = true) evs).

Section GetFile.

(** The collaborators [main.go] calls and does not define.  Each may answer
    from the history of calls so far. *)

(** [b.FileByID(fileID)]: the metadata call. *)
Variable FileByID : list IOEvent → Bot → string → File * option error.

(** URL parsing inside [http.NewRequest]: nil when the URL is well formed. *)
Variable parseURL : string → option error.

(** [b.client.Do(req)]. *)
Variable Do : list IOEvent → Request → option Response * option error.

(** [wrapError(err)]. *)
Variable wrapError : option error → option error.

(** [http.NewRequest(method, url, nil)] for a valid method: the request
    carries the method and the URL it was given, or the URL does not parse. *)
Definition NewRequest (method url : string) : option Request * option error :=
  match parseURL url with
  | Some e => (None, Some e)
  | None => (Some {| Method := method; Request_URL := url |}, None)
  end.

(** [GetFile] on a non-nil receiver with a non-nil client: the bot is held
    by value in the state and its client is the function [Do].  A nil
    [*File] is a location the heap does not hold. *)
Definition GetFile (file : loc) (σ : ProgState) : Outcome * ProgState :=
  match files σ !! file with
  | None => (Panic, σ)
  | Some fl =>
    let b := bot σ in
    let '(f, err) := FileByID (io σ) b (FileID fl) in
    let σ1 := log (CallFileByID (FileID fl)) σ in
    match err with
    | Some e => (Return None (Some e), σ1)
    | None =>
      let url := URL b +:+ "/file/bot" +:+ Token b +:+ "/" +:+ FilePath f in
      let σ2 := store file (set_FilePath (FilePath f) fl) σ1 in
      match NewRequest MethodGet url with
      | (_, Some e) => (Return None (wrapError (Some e)), σ2)
      | (None, None) => (Panic, σ2)
      | (Some req, None) =>
        let '(resp, err) := Do (io σ2) req in
        let σ3 := log (CallDo req) σ2 in
        match err with
        | Some e => (Return None (wrapError (Some e)), σ3)
        | None =>
          match resp with
          | None => (Panic, σ3)
          | Some r =>
            if bool_decide (StatusCode r ≠ StatusOK) then
              let σ4 := log (CallClose (Body r)) σ3 in
              (Return None (Some (Errorf_status (Status r))), σ4)
            else (Return (Some (Body r)) None, σ3)
          end
        end
      end
    end
  end.

End GetFile.

(** The stages of [GetFile] on a reference [fl] stored at [file], named so
    that statements about the function can speak of them. *)
Section GetFileStages.

Variable FileByID : list IOEvent → Bot → string → File * option error.
Variable parseURL : string → option error.
Variable Do : list IOEvent → Request → option Response * option error.
Variable wrapError : option error → option error.

(** The answer of the metadata call issued in state [σ]. *)
Definition metadata_of (σ : ProgState) (fl : File) : File * option error :=
  FileByID (io σ) (bot σ) (FileID fl).

(** The state after a successful metadata call: the call is logged and the
    path is saved on the reference. *)
Definition after_metadata (file : loc) (fl : File) (σ : ProgState) : ProgState :=
  store file (set_FilePath (FilePath (metadata_of σ fl).1) fl)
    (log (CallFileByID (FileID fl)) σ).

(** The request for the binary. *)
Definition binary_request (σ : ProgState) (fl : File) : Request :=
  {| Method := MethodGet;
     Request_URL := file_endpoint (bot σ) (FilePath (metadata_of σ fl).1) |}.

(** The six paths through [GetFile] on an existing reference [fl], each
    with the outcome and the state it ends in. *)
Inductive GetFile_path (file : loc) (σ : ProgState) (fl : File)
  : Outcome → ProgState → Prop :=
| path_metadata_error e :
    (metadata_of σ fl).2 = Some e →
    GetFile_path file σ fl (Return None (Some e)) (log (CallFileByID (FileID fl)) σ)
| path_bad_url e :
    (metadata_of σ fl).2 = None →
    parseURL (Request_URL (binary_request σ fl)) = Some e →
    GetFile_path file σ fl (Return None (wrapError (Some e))) (after_metadata file fl σ)
| path_do_error resp e :
    (metadata_of σ fl).2 = None →
    parseURL (Request_URL (binary_request σ fl)) = None →
    Do (io (after_metadata file fl σ)) (binary_request σ fl) = (resp, Some e) →
    GetFile_path file σ fl (Return None (wrapError (Some e)))
      (log (CallDo (binary_request σ fl)) (after_metadata file fl σ))
| path_nil_response :
    (metadata_of σ fl).2 = None →
    parseURL (Request_URL (binary_request σ fl)) = None →
    Do (io (after_metadata file fl σ)) (binary_request σ fl) = (None, None) →
    GetFile_path file σ fl Panic (log (CallDo (binary_request σ fl)) (after_metadata file fl σ))
| path_bad_status r :
    (metadata_of σ fl).2 = None →
    parseURL (Request_URL (binary_request σ fl)) = None →
    Do (io (after_metadata file fl σ)) (binary_request σ fl) = (Some r, None) →
    StatusCode r ≠ StatusOK →
    GetFile_path file σ fl (Return None (Some (Errorf_status (Status r))))
      (log (CallClose (Body r)) (log (CallDo (binary_request σ fl)) (after_metadata file fl σ)))
| path_ok r :
    (metadata_of σ fl).2 = None →
    parseURL (Request_URL (binary_request σ fl)) = None →
    Do (io (after_metadata file fl σ)) (binary_request σ fl) = (Some r, None) →
    StatusCode r = StatusOK →
    GetFile_path file σ fl (Return (Some (Body r)) None)
      (log (CallDo (binary_request σ fl)) (after_metadata file fl σ)).

End GetFileStages.

(** An event [GetFile] may log after the metadata call: the binary request
    [req], or the closing of a response body. *)
Definition fetch_or_close (req : Request) (ev : IOEvent) : Prop :=
  match ev with
  | CallFileByID _ => False
  | CallDo r => r = req
  | CallClose _ => True
  end.

(** The URL as section 4.2 of the specification words it. *)
Definition spec_binary_url (b : Bot) (path : string) : string :=
  URL b +:+ "/bot" +:+ Token b +:+ "/" +:+ path.

(** The four reference forms of the specification, read off the fields of
    a [File]: exactly the named field is set. *)
Definition is_remote_id (fl : File) : Prop :=
  FileID fl ≠ "" ∧ FileLocal fl = "" ∧ FileURL fl = "" ∧ FileReader fl = None.
Definition is_local_path (fl : File) : Prop :=
  FileID fl = "" ∧ FileLocal fl ≠ "" ∧ FileURL fl = "" ∧ FileReader fl = None.
Definition is_remote_url (fl : File) : Prop :=
  FileID fl = "" ∧ FileLocal fl = "" ∧ FileURL fl ≠ "" ∧ FileReader fl = None.
Definition is_open_stream (fl : File) : Prop :=
  FileID fl = "" ∧ FileLocal fl = "" ∧ FileURL fl = "" ∧ is_Some (FileReader fl).

(** ** Concrete collaborators, for running the model *)

Definition telegram_bot : Bot :=
  {| Me := None; Token := "TOKEN_HERE"; URL := "https://api.telegram.org";
     Updates := [] |}.

(** A server that knows every non-empty file id and stores it under
    [photos/]. *)
Definition FileByID_ok (_ : list IOEvent) (_ : Bot) (fileID : string)
  : File * option error :=
  if bool_decide (fileID = "") then
    ({| FileID := ""; UniqueID := ""; FileSize := 0; FilePath := "";
        FileLocal := ""; FileURL := ""; FileReader := None |},
     Some (ErrCollaborator "telegram: file_id not specified (400)"))
  else
    ({| FileID := fileID; UniqueID := "u-" +:+ fileID; FileSize := 1024;
        FilePath := "photos/" +:+ fileID; FileLocal := ""; FileURL := "";
        FileReader := None |}, None).

Definition FileByID_down (_ : list IOEvent) (_ : Bot) (fileID : string)
  : File * option error :=
  ({| FileID := ""; UniqueID := ""; FileSize := 0; FilePath := "";
      FileLocal := ""; FileURL := ""; FileReader := None |},
   Some (ErrCollaborator "telegram: Unauthorized (401)")).

(** A server that answers every id, the empty one too. *)
Definition FileByID_any (_ : list IOEvent) (_ : Bot) (fileID : string)
  : File * option error :=
  ({| FileID := fileID; UniqueID := "u-" +:+ fileID; FileSize := 1024;
      FilePath := "documents/file_0"; FileLocal := ""; FileURL := "";
      FileReader := None |}, None).

Definition parseURL_ok (_ : string) : option error := None.
Definition parseURL_bad (_ : string) : option error :=
  Some (ErrCollaborator "parse: invalid URL escape").

Definition Do_ok (_ : list IOEvent) (_ : Request) : option Response * option error :=
  (Some {| Status := "200 OK"; StatusCode := 200; Body := 7%nat |}, None).
Definition Do_not_found (_ : list IOEvent) (_ : Request)
  : option Response * option error :=
  (Some {| Status := "404 Not Found"; StatusCode := 404; Body := 8%nat |}, None).
Definition Do_refused (_ : list IOEvent) (_ : Request)
  : option Response * option error :=
  (None, Some (ErrCollaborator "dial tcp: connection refused")).

(** A client that breaks its contract and returns neither a response nor
    an error. *)
Definition Do_silent (_ : list IOEvent) (_ : Request)
  : option Response * option error :=
  (None, None).

(** [errors.Wrap(err, "telebot")]: nil stays nil. *)
Definition wrapError_telebot (err : option error) : option error :=
  match err with
  | None => None
  | Some e => Some (ErrCollaborator ("telebot: " +:+ error_message e))
  end.

Definition photo : File :=
  {| FileID := "AgADBA"; UniqueID := "AQAD"; FileSize := 1024; FilePath := "";
     FileLocal := ""; FileURL := ""; FileReader := None |}.
Definition local_file : File :=
  {| FileID := ""; UniqueID := ""; FileSize := 0; FilePath := "";
     FileLocal := "/tmp/cat.png"; FileURL := ""; FileReader := None |}.
Definition url_file : File :=
  {| FileID := ""; UniqueID := ""; FileSize := 0; FilePath := "";
     FileLocal := ""; FileURL := "https://example.org/cat.png";
     FileReader := None |}.
Definition stream_file : File :=
  {| FileID := ""; UniqueID := ""; FileSize := 0; FilePath := "";
     FileLocal := ""; FileURL := ""; FileReader := Some 42%nat |}.

(** A program state holding the four references at locations 1 to 4. *)
Definition st0 : ProgState :=
  {| bot := telegram_bot;
     files := <[1%positive := photo]> (<[2%positive := local_file]>
              (<[3%positive := url_file]> (<[4%positive := stream_file]> ∅)));
     io := [] |}.

(** ** Poller

    [main.go] declares the interface only; the strategy [main] plugs in,
    the long poller, is not part of the file. *)

(** What one "get updates" call of the transport can answer. *)
Inductive FetchResult :=
| Batch (us : list Update)
| NetworkError
| RemoteError.

(** What the poller observes at a loop head: the stop signal, or the
    answer to the fetch it issues. *)
Inductive Observation :=
| StopSignaled
| Fetched (r : FetchResult).

Inductive PollEvent :=
| EvFetch (offset timeout : Z) (r : FetchResult)
| EvPush (u : Update)
| EvCursor (c : Z)
| EvBackoff
| EvFatal
| EvStopped.

Inductive Phase := Running | Stopped.

Record PollerState := mkPollerState {
  phase : Phase;
  cursor : Z;
  trace : list PollEvent
}.

Class Poller (P : Type) :=
  Poller_Poll : P → PollerState → list Observation → PollerState.

Record LongPoller := mkLongPoller { LongPoller_Timeout : Z }.

(** Insertion of an update into a batch sorted by sequence id, after the
    updates with the same id. *)
Fixpoint insert_by_id (u : Update) (us : list Update) : list Update :=
  match us with
  | [] => [u]
  | v :: vs =>
    if bool_decide (Update_ID u < Update_ID v) then u :: v :: vs
    else v :: insert_by_id u vs
  end.

Definition ascending (us : list Update) : list Update :=
  foldr insert_by_id [] us.

(** max(sequence_id in batch), for a batch whose first element is [u]. *)
Definition max_id (u : Update) (us : list Update) : Z :=
  foldr (λ v m, Z.max (Update_ID v) m) (Update_ID u) us.

(** The updates pushed on the channel, oldest first. *)
Definition pushed (t : list PollEvent) : list Update :=
  omap (λ ev, match ev with EvPush u => Some u | _ => None end) t.

(** Modelled from the spec: the long-poll strategy behind the [Poller]
    interface, one loop iteration of section 4.3.  The events of the
    iteration, its next phase and its next cursor. *)
Definition iteration (timeout : Z) (c : Z) (o : Observation)
  : list PollEvent * Phase * Z :=
  match o with
  | StopSignaled => ([EvStopped], Stopped, c)
  | Fetched r =>
    match r with
    | Batch [] => ([EvFetch c timeout r], Running, c)
    | Batch (u :: us) =>
      let c' := max_id u us + 1 in
      (EvFetch c timeout r :: (EvPush <$> ascending (u :: us)) ++ [EvCursor c'],
       Running, c')
    | NetworkError => ([EvFetch c timeout r; EvBackoff], Running, c)
    | RemoteError => ([EvFetch c timeout r; EvFatal], Stopped, c)
    end
  end.

(** Modelled from the spec: the loop body while Running; Stopped is
    terminal. *)
Definition poll_step (timeout : Z) (s : PollerState) (o : Observation)
  : PollerState :=
  match phase s with
  | Stopped => s
  | Running =>
    let '(evs, ph, c) := iteration timeout (cursor s) o in
    {| phase := ph; cursor := c; trace := trace s ++ evs |}
  end.

(** Modelled from the spec: the long poller run against a script of
    observations. *)
#[export] Instance LongPoller_Poller : Poller LongPoller :=
  λ p s obs, foldl (poll_step (LongPoller_Timeout p)) s obs.

(** [start]: Running, cursor 0, nothing pushed. *)
Definition start : PollerState :=
  {| phase := Running; cursor := 0; trace := [] |}.

(** The transport honours the offset along a run: every batch fetched
    while Running holds pairwise distinct sequence ids, none below the
    offset of its fetch. *)
Fixpoint honours_offset (timeout : Z) (s : PollerState) (obs : list Observation)
  : Prop :=
  match obs with
  | [] => True
  | o :: rest =>
    match phase s, o with
    | Running, Fetched (Batch us) =>
      Forall (λ u, cursor s ≤ Update_ID u) us ∧ NoDup (Update_ID <$> us)
    | _, _ => True
    end ∧ honours_offset timeout (poll_step timeout s o) rest
  end.

(** No sequence id is pushed on the channel twice. *)
Definition pushed_once (t : list PollEvent) : Prop :=
  NoDup (Update_ID <$> pushed t).

(** At every fetch, the updates pushed before it lie below its offset and
    the updates pushed from it on do not: nothing below the cursor at the
    time of a fetch is pushed again. *)
Definition no_redelivery (t : list PollEvent) : Prop :=
  ∀ t1 c τ r t2, t = t1 ++ EvFetch c τ r :: t2 →
    (∀ u, u ∈ pushed t1 → Update_ID u < c) ∧
    (∀ u, u ∈ pushed t2 → c ≤ Update_ID u).

(** Every setting of the cursor comes right after the pushes of a whole
    non-empty batch, sets it to the largest id of the batch plus one, and
    is followed by nothing but the next fetch, at that offset, or the
    stop. *)
Definition cursor_after_batch (t : list PollEvent) : Prop :=
  ∀ t1 c t2, t = t1 ++ EvCursor c :: t2 →
    (∃ t0 c0 τ u us,
       t1 = t0 ++ EvFetch c0 τ (Batch (u :: us)) :: (EvPush <$> ascending (u :: us))
       ∧ c = max_id u us + 1
       ∧ ∀ v, v ∈ u :: us → Update_ID v < c) ∧
    (t2 = [] ∨ ∃ t3, t2 = EvStopped :: t3 ∨ ∃ τ r, t2 = EvFetch c τ r :: t3).

(** The cursor a trace leaves behind: the value of its last setting, or
    the start value when it has none. *)
Definition cursor_event (c : Z) (ev : PollEvent) : Z :=
  match ev with
  | EvCursor c' => c'
  | _ => c
  end.

Definition last_cursor (t : list PollEvent) : Z :=
  foldl cursor_event (cursor start) t.

(** Every fetch uses as its offset the cursor left by the events before
    it: the cursor changes by a setting and by nothing else. *)
Definition fetches_at_cursor (t : list PollEvent) : Prop :=
  ∀ t1 c τ r t2, t = t1 ++ EvFetch c τ r :: t2 → c = last_cursor t1.

(** An update that carries nothing but its sequence id. *)
Definition bare_update (id : Z) : Update :=
  {| Update_ID := id; Update_Message := None; Update_EditedMessage := None;
     Update_ChannelPost := None; Update_EditedChannelPost := None;
     Update_Callback := None; Update_Query := None;
     Update_ChosenInlineResult := None; Update_ShippingQuery := None;
     Update_PreCheckoutQuery := None; Update_Poll := None;
     Update_PollAnswer := None; Update_MyChatMember := None;
     Update_ChatMember := None |}.

Definition long_poller : LongPoller := {| LongPoller_Timeout := 10 |}.

(** The scenario of section 8: a batch with ids 1 and 2, an empty batch, a
    network error, the retried fetch, and the stop signal. *)
Definition scenario : list Observation :=
  [Fetched (Batch [bare_update 1; bare_update 2]); Fetched (Batch []);
   Fetched NetworkError; Fetched (Batch []); StopSignaled].

(** ** Command extraction

    [main.go] declares where the result goes, [Message.Payload] ("Ex:
    `/command <payload>` or `/command@botname <payload>`"); the function
    that fills it is not part of the file. *)

Definition command_prefix : ascii := "/"%char.
Definition botname_delimiter : ascii := "@"%char.

Definition is_whitespace (a : ascii) : bool :=
  Ascii.eqb a " "%char || Ascii.eqb a "009"%char || Ascii.eqb a "010"%char
  || Ascii.eqb a "011"%char || Ascii.eqb a "012"%char || Ascii.eqb a "013"%char.

(** A character that ends the command token: whitespace, or the delimiter
    that introduces the bot name. *)
Definition ends_token (a : ascii) : bool :=
  is_whitespace a || Ascii.eqb a botname_delimiter.

(** The longest prefix free of [stop] characters, and the rest. *)
Fixpoint break_at (stop : ascii → bool) (s : string) : string * string :=
  match s with
  | EmptyString => ("", "")
  | String a rest =>
    if stop a then ("", s)
    else let '(tok, after) := break_at stop rest in (String a tok, after)
  end.

(** Skips a [@botname] suffix, if one follows the token. *)
Definition drop_botname (s : string) : string :=
  match s with
  | String a rest =>
    if Ascii.eqb a botname_delimiter then (break_at is_whitespace rest).2 else s
  | EmptyString => s
  end.

(** Skips the whitespace character that separates command and payload. *)
Definition drop_separator (s : string) : string :=
  match s with
  | String _ rest => rest
  | EmptyString => ""
  end.

(** Modelled from the spec: the command extraction of section 4.4, which
    is missing from [main.go].  For a text that begins with the command
    prefix, the discriminator (the token up to the first whitespace or
    [@]) and the payload (everything after the token, its bot name suffix
    and the separator). *)
Definition extract_command (text : string) : option (string * string) :=
  match text with
  | String a rest =>
    if Ascii.eqb a command_prefix then
      let '(token, after) := break_at ends_token rest in
      Some (token, drop_separator (drop_botname after))
    else None
  | EmptyString => None
  end.

Fixpoint all_chars (p : ascii → bool) (s : string) : bool :=
  match s with
  | EmptyString => true
  | String a rest => p a && all_chars p rest
  end.

Definition set_Payload (p : string) (m : Message) : Message :=
  {| Message_ID := Message_ID m; Message_InlineID := Message_InlineID m;
     Message_Sender := Message_Sender m; Message_Unixtime := Message_Unixtime m;
     Message_Chat := Message_Chat m; Message_SenderChat := Message_SenderChat m;
     Message_OriginalSender := Message_OriginalSender m;
     Message_OriginalChat := Message_OriginalChat m;
     Message_OriginalMessageID := Message_OriginalMessageID m;
     Message_OriginalSignature := Message_OriginalSignature m;
     Message_OriginalSenderName := Message_OriginalSenderName m;
     Message_OriginalUnixtime := Message_OriginalUnixtime m;
     Message_Via := Message_Via m; Message_LastEdit := Message_LastEdit m;
     Message_AlbumID := Message_AlbumID m; Message_Signature := Message_Signature m;
     Message_Text := Message_Text m; Message_Payload := p;
     Message_Entities := Message_Entities m; Message_Caption := Message_Caption m;
     Message_CaptionEntities := Message_CaptionEntities m;
     Message_Poll := Message_Poll m; Message_UserJoined := Message_UserJoined m;
     Message_UserLeft := Message_UserLeft m;
     Message_NewGroupTitle := Message_NewGroupTitle m;
     Message_UsersJoined := Message_UsersJoined m;
     Message_GroupPhotoDeleted := Message_GroupPhotoDeleted m;
     Message_GroupCreated := Message_GroupCreated m;
     Message_SuperGroupCreated := Message_SuperGroupCreated m;
     Message_ChannelCreated := Message_ChannelCreated m;
     Message_MigrateTo := Message_MigrateTo m;
     Message_MigrateFrom := Message_MigrateFrom m;
     Message_ConnectedWebsite := Message_ConnectedWebsite m |}.

(** Modelled from the spec: a command message gets its payload filled in
    and is dispatched under its discriminator; any other text is left as
    it is. *)
Definition classify_text (m : Message) : option string * Message :=
  match extract_command (Message_Text m) with
  | Some (cmd, payload) => (Some cmd, set_Payload payload m)
  | None => (None, m)
  end.

Definition text_message (text : string) : Message :=
  {| Message_ID := 1; Message_InlineID := ""; Message_Sender := None;
     Message_Unixtime := 0; Message_Chat := None; Message_SenderChat := None;
     Message_OriginalSender := None; Message_OriginalChat := None;
     Message_OriginalMessageID := 0; Message_OriginalSignature := "";
     Message_OriginalSenderName := ""; Message_OriginalUnixtime := 0;
     Message_Via := None; Message_LastEdit := 0; Message_AlbumID := "";
     Message_Signature := ""; Message_Text := text; Message_Payload := "";
     Message_Entities := []; Message_Caption := ""; Message_CaptionEntities := [];
     Message_Poll := None; Message_UserJoined := None; Message_UserLeft := None;
     Message_NewGroupTitle := ""; Message_UsersJoined := [];
     Message_GroupPhotoDeleted := false; Message_GroupCreated := false;
     Message_SuperGroupCreated := false; Message_ChannelCreated := false;
     Message_MigrateTo := 0; Message_MigrateFrom := 0;
     Message_ConnectedWebsite := "" |}.

(** ** Sample payloads, for building updates *)

Definition some_user : User :=
  {| User_ID := 7; User_FirstName := "Ada"; User_LastName := "";
     User_Username := "ada"; User_LanguageCode := "en"; User_IsBot := false;
     User_CanJoinGroups := false; User_CanReadMessages := false;
     User_SupportsInline := false |}.

Definition some_chat : Chat :=
  {| Chat_ID := 7; Chat_Type := "private"; Chat_Title := "";
     Chat_FirstName := "Ada"; Chat_LastName := ""; Chat_Username := "ada";
     Chat_Still := false; Chat_Bio := ""; Chat_Photo := None;
     Chat_Description := ""; Chat_InviteLink := ""; Chat_Permissions := None;
     Chat_SlowMode := 0; Chat_StickerSet := ""; Chat_CanSetStickerSet := false;
     Chat_LinkedChatID := 0 |}.

Definition some_address : ShippingAddress :=
  {| CountryCode := "NL"; State := ""; City := "Delft"; StreetLine1 := "";
     StreetLine2 := ""; PostCode := "" |}.

Definition some_callback : Callback :=
  {| Callback_ID := "cb"; Callback_Sender := Some some_user;
     Callback_Message := None; Callback_MessageID := ""; Callback_Data := "ok" |}.

Definition some_query : Query :=
  {| Query_ID := "q"; Query_From := some_user; Query_Text := "cats";
     Query_Offset := ""; Query_ChatType := "private" |}.

Definition some_result : ChosenInlineResult :=
  {| ChosenInlineResult_From := some_user; ChosenInlineResult_ResultID := "r";
     ChosenInlineResult_Query := "cats"; ChosenInlineResult_MessageID := "" |}.

Definition some_shipping : ShippingQuery :=
  {| ShippingQuery_Sender := Some some_user; ShippingQuery_ID := "s";
     ShippingQuery_Payload := ""; ShippingQuery_Address := some_address |}.

Definition some_checkout : PreCheckoutQuery :=
  {| PreCheckoutQuery_Sender := Some some_user; PreCheckoutQuery_ID := "c";
     PreCheckoutQuery_Currency := "EUR"; PreCheckoutQuery_Payload := "";
     PreCheckoutQuery_Total := 100; PreCheckoutQuery_OptionID := "";
     PreCheckoutQuery_Order :=
       {| Order_Name := ""; Order_PhoneNumber := ""; Order_Email := "";
          Order_Address := some_address |} |}.

Definition some_poll : Poll :=
  {| Poll_ID := "p"; Poll_Type := "regular"; Poll_Question := "?";
     Poll_Options := []; Poll_VoterCount := 0; Poll_Closed := false;
     Poll_CorrectOption := 0; Poll_MultipleAnswers := false;
     Poll_Explanation := ""; Poll_ParseMode := ""; Poll_Entities := [];
     Poll_Anonymous := true; Poll_OpenPeriod := 0; Poll_CloseUnixdate := 0 |}.

Definition some_answer : PollAnswer :=
  {| PollAnswer_PollID := "p"; PollAnswer_User := some_user;
     PollAnswer_Options := [0] |}.

Definition some_member_update : ChatMemberUpdated :=
  {| ChatMemberUpdated_Chat := some_chat; ChatMemberUpdated_From := some_user;
     ChatMemberUpdated_Unixtime := 0 |}.

Definition when {A} (b : bool) (x : A) : option A :=
  if b then Some x else None.

(** The update whose k-th variant field is populated exactly when the
    k-th flag is set (a missing flag counts as unset). *)
Definition update_of_flags (id : Z) (flags : list bool) : Update :=
  let flag k := default false (flags !! k) in
  {| Update_ID := id;
     Update_Message := when (flag 0%nat) (text_message "hi");
     Update_EditedMessage := when (flag 1%nat) (text_message "hi!");
     Update_ChannelPost := when (flag 2%nat) (text_message "news");
     Update_EditedChannelPost := when (flag 3%nat) (text_message "news!");
     Update_Callback := when (flag 4%nat) some_callback;
     Update_Query := when (flag 5%nat) some_query;
     Update_ChosenInlineResult := when (flag 6%nat) some_result;
     Update_ShippingQuery := when (flag 7%nat) some_shipping;
     Update_PreCheckoutQuery := when (flag 8%nat) some_checkout;
     Update_Poll := when (flag 9%nat) some_poll;
     Update_PollAnswer := when (flag 10%nat) some_answer;
     Update_MyChatMember := when (flag 11%nat) some_member_update;
     Update_ChatMember := when (flag 12%nat) some_member_update |}.

(** An update decoded from JSON that carries both a [message] and a
    [callback_query] key: the decoder fills both fields. *)
Definition two_variant_update : Update :=
  {| Update_ID := 5; Update_Message := Some (text_message "hi");
     Update_EditedMessage := None; Update_ChannelPost := None;
     Update_EditedChannelPost := None; Update_Callback := Some some_callback;
     Update_Query := None; Update_ChosenInlineResult := None;
     Update_ShippingQuery := None; Update_PreCheckoutQuery := None;
     Update_Poll := None; Update_PollAnswer := None;
     Update_MyChatMember := None; Update_ChatMember := None |}.

(** ** Reading the log of a call *)

(** The events a call appended to the log, given the states before and
    after it. *)
Definition new_events (σ σ' : ProgState) : list IOEvent :=
  drop (length (io σ)) (io σ').

(** Collaborators whose answers do not depend on the calls made so far. *)
Definition stateless_FileByID
    (FileByID : list IOEvent → Bot → string → File * option error) : Prop :=
  ∀ h h' b fileID, FileByID h b fileID = FileByID h' b fileID.

Definition stateless_Do
    (Do : list IOEvent → Request → option Response * option error) : Prop :=
  ∀ h h' req, Do h req = Do h' req.

(** * Properties *)

(** ** Running the model *)

Example extract_start :
  extract_command "/start foo bar" = Some ("start", "foo bar").
Proof. reflexivity. Qed.

Example extract_start_botname :
  extract_command "/start@botname foo" = Some ("start", "foo").
Proof. reflexivity. Qed.

Example extract_plain_text : extract_command "hello /start" = None.
Proof. reflexivity. Qed.

(** The end-to-end scenario of the specification: a batch with ids 1 and
    2, an empty batch, a network error and the stop signal move the cursor
    from 0 to 3, push two updates and fetch once more after the error. *)
Example poller_scenario :
  let s := Poller_Poll long_poller start scenario in
  cursor s = 3 ∧ phase s = Stopped ∧
  pushed (trace s) = [bare_update 1; bare_update 2] ∧
  trace s =
    [EvFetch 0 10 (Batch [bare_update 1; bare_update 2]);
     EvPush (bare_update 1); EvPush (bare_update 2); EvCursor 3;
     EvFetch 3 10 (Batch []);
     EvFetch 3 10 NetworkError; EvBackoff;
     EvFetch 3 10 (Batch []);
     EvStopped].
Proof. repeat split; reflexivity. Qed.

Example GetFile_photo :
  GetFile FileByID_ok parseURL_ok Do_ok wrapError_telebot 1%positive st0
  = (Return (Some 7%nat) None,
     {| bot := telegram_bot;
        files := <[1%positive := set_FilePath "photos/AgADBA" photo]> (files st0);
        io := [CallFileByID "AgADBA";
               CallDo {| Method := "GET";
                         Request_URL :=
                           "https://api.telegram.org/file/botTOKEN_HERE/photos/AgADBA" |}]
     |}).
Proof. reflexivity. Qed.

(** ** GetFile *)

Section GetFileProperties.

Variable FileByID : list IOEvent → Bot → string → File * option error.
Variable parseURL : string → option error.
Variable Do : list IOEvent → Request → option Response * option error.
Variable wrapError : option error → option error.

Local Abbreviation getFile := (GetFile FileByID parseURL Do wrapError).
Local Abbreviation metadata := (metadata_of FileByID).
Local Abbreviation saved := (after_metadata FileByID).
Local Abbreviation request := (binary_request FileByID).
Local Abbreviation path := (GetFile_path FileByID parseURL Do wrapError).

Ltac stages :=
  unfold GetFile, NewRequest, after_metadata, binary_request, metadata_of,
    file_endpoint in *; simpl in *.

(** The paths through the function, one equation each. *)

Lemma GetFile_nil file σ :
  files σ !! file = None → getFile file σ = (Panic, σ).
Proof. intros H. unfold GetFile. by rewrite H. Qed.

Lemma GetFile_metadata_error file σ fl e :
  files σ !! file = Some fl →
  (metadata σ fl).2 = Some e →
  getFile file σ = (Return None (Some e), log (CallFileByID (FileID fl)) σ).
Proof.
  intros Hf Hm. stages. rewrite Hf.
  destruct (FileByID _ _ _) as [f err]; simpl in *. by subst.
Qed.

Lemma GetFile_bad_url file σ fl e :
  files σ !! file = Some fl →
  (metadata σ fl).2 = None →
  parseURL (Request_URL (request σ fl)) = Some e →
  getFile file σ = (Return None (wrapError (Some e)), saved file fl σ).
Proof.
  intros Hf Hm Hu. stages. rewrite Hf.
  destruct (FileByID _ _ _) as [f err]; simpl in *. subst. by rewrite Hu.
Qed.

Lemma GetFile_do_error file σ fl resp e :
  files σ !! file = Some fl →
  (metadata σ fl).2 = None →
  parseURL (Request_URL (request σ fl)) = None →
  Do (io (saved file fl σ)) (request σ fl) = (resp, Some e) →
  getFile file σ
  = (Return None (wrapError (Some e)), log (CallDo (request σ fl)) (saved file fl σ)).
Proof.
  intros Hf Hm Hu Hd. stages. rewrite Hf.
  destruct (FileByID _ _ _) as [f err]; simpl in *. subst.
  by rewrite Hu, Hd.
Qed.

Lemma GetFile_nil_response file σ fl :
  files σ !! file = Some fl →
  (metadata σ fl).2 = None →
  parseURL (Request_URL (request σ fl)) = None →
  Do (io (saved file fl σ)) (request σ fl) = (None, None) →
  getFile file σ = (Panic, log (CallDo (request σ fl)) (saved file fl σ)).
Proof.
  intros Hf Hm Hu Hd. stages. rewrite Hf.
  destruct (FileByID _ _ _) as [f err]; simpl in *. subst.
  by rewrite Hu, Hd.
Qed.

Lemma GetFile_bad_status file σ fl r :
  files σ !! file = Some fl →
  (metadata σ fl).2 = None →
  parseURL (Request_URL (request σ fl)) = None →
  Do (io (saved file fl σ)) (request σ fl) = (Some r, None) →
  StatusCode r ≠ StatusOK →
  getFile file σ
  = (Return None (Some (Errorf_status (Status r))),
     log (CallClose (Body r)) (log (CallDo (request σ fl)) (saved file fl σ))).
Proof.
  intros Hf Hm Hu Hd Hs. stages. rewrite Hf.
  destruct (FileByID _ _ _) as [f err]; simpl in *. subst.
  rewrite Hu, Hd. by rewrite bool_decide_true.
Qed.

Lemma GetFile_ok file σ fl r :
  files σ !! file = Some fl →
  (metadata σ fl).2 = None →
  parseURL (Request_URL (request σ fl)) = None →
  Do (io (saved file fl σ)) (request σ fl) = (Some r, None) →
  StatusCode r = StatusOK →
  getFile file σ
  = (Return (Some (Body r)) None, log (CallDo (request σ fl)) (saved file fl σ)).
Proof.
  intros Hf Hm Hu Hd Hs. stages. rewrite Hf.
  destruct (FileByID _ _ _) as [f err]; simpl in *. subst.
  rewrite Hu, Hd. rewrite bool_decide_false; [done | by intros []].
Qed.

Lemma GetFile_paths file σ fl :
  files σ !! file = Some fl →
  path file σ fl (getFile file σ).1 (getFile file σ).2.
Proof.
  intros Hf.
  destruct (metadata σ fl).2 as [e|] eqn:Hm.
  { rewrite (GetFile_metadata_error _ _ _ _ Hf Hm). by constructor. }
  destruct (parseURL (Request_URL (request σ fl))) as [e|] eqn:Hu.
  { rewrite (GetFile_bad_url _ _ _ _ Hf Hm Hu). by constructor. }
  destruct (Do (io (saved file fl σ)) (request σ fl)) as [resp [e|]] eqn:Hd.
  { rewrite (GetFile_do_error _ _ _ _ _ Hf Hm Hu Hd). by econstructor. }
  destruct resp as [r|].
  - destruct (decide (StatusCode r = StatusOK)) as [Hs|Hs].
    + rewrite (GetFile_ok _ _ _ _ Hf Hm Hu Hd Hs). by constructor.
    + rewrite (GetFile_bad_status _ _ _ _ Hf Hm Hu Hd Hs). by constructor.
  - rewrite (GetFile_nil_response _ _ _ Hf Hm Hu Hd). by constructor.
Qed.

(** What a call does to the heap and to the log, whatever path it takes. *)

Lemma metadata_calls_snoc evs ev :
  metadata_calls (evs ++ [ev])
  = (metadata_calls evs + (if is_metadata_call ev then 1 else 0))%nat.
Proof.
  unfold metadata_calls. rewrite filter_app, length_app. f_equal.
  destruct ev; reflexivity.
Qed.

Lemma set_FilePath_same fl : set_FilePath (FilePath fl) fl = fl.
Proof. by destruct fl. Qed.

Lemma GetFile_heap file σ fl :
  files σ !! file = Some fl →
  files (getFile file σ).2 = files σ ∧ is_Some ((metadata σ fl).2)
  ∨ files (getFile file σ).2
    = <[file := set_FilePath (FilePath (metadata σ fl).1) fl]> (files σ)
    ∧ (metadata σ fl).2 = None.
Proof.
  intros Hf. destruct (GetFile_paths file σ fl Hf); eauto.
Qed.

Lemma GetFile_bot file σ : bot (getFile file σ).2 = bot σ.
Proof.
  destruct (files σ !! file) as [fl|] eqn:Hf.
  - by destruct (GetFile_paths file σ fl Hf).
  - by rewrite GetFile_nil.
Qed.

Lemma GetFile_log file σ fl :
  files σ !! file = Some fl →
  ∃ evs, io (getFile file σ).2 = io σ ++ CallFileByID (FileID fl) :: evs
         ∧ Forall (fetch_or_close (request σ fl)) evs.
Proof.
  intros Hf. destruct (GetFile_paths file σ fl Hf); simpl.
  - exists []. split; [done | constructor].
  - exists []. split; [done | constructor].
  - exists [CallDo (request σ fl)]. rewrite <- app_assoc. split; [done |].
    by repeat constructor.
  - exists [CallDo (request σ fl)]. rewrite <- app_assoc. split; [done |].
    by repeat constructor.
  - exists [CallDo (request σ fl); CallClose (Body r)].
    rewrite <- !app_assoc. split; [done |]. by repeat constructor.
  - exists [CallDo (request σ fl)]. rewrite <- app_assoc. split; [done |].
    by repeat constructor.
Qed.

Lemma GetFile_one_metadata_call file σ fl :
  files σ !! file = Some fl →
  metadata_calls (io (getFile file σ).2) = S (metadata_calls (io σ)).
Proof.
  intros Hf. destruct (GetFile_paths file σ fl Hf); simpl;
    rewrite ?metadata_calls_snoc; simpl; lia.
Qed.

(** C2, as the code has it: resolving the same reference twice issues two
    metadata calls, one per resolution.  A successful metadata call saves
    the server path on the reference, but [GetFile] never reads the saved
    path, so the second resolution calls again whether or not a path is
    cached. *)
Theorem GetFile_twice_two_metadata_calls file σ fl :
  let σ1 := (GetFile FileByID parseURL Do wrapError file σ).2 in
  let σ2 := (GetFile FileByID parseURL Do wrapError file σ1).2 in
  let meta := metadata_of FileByID σ fl in
  files σ !! file = Some fl →
  (meta.2 = None → FilePath <$> files σ1 !! file = Some (FilePath meta.1)) ∧
  metadata_calls (io σ1) = S (metadata_calls (io σ)) ∧
  metadata_calls (io σ2) = S (S (metadata_calls (io σ))).
Proof.
  cbv zeta. intros Hf.
  assert (∃ fl1, files (getFile file σ).2 !! file = Some fl1) as [fl1 Hf1].
  { destruct (GetFile_heap file σ fl Hf) as [[-> _]|[-> _]]; [by eauto |].
    rewrite lookup_insert_eq. eauto. }
  split; [| split].
  - intros Hm. destruct (GetFile_heap file σ fl Hf) as [[_ [e He]]|[Hh _]].
    + congruence.
    + rewrite Hh, lookup_insert_eq. reflexivity.
  - by apply GetFile_one_metadata_call with fl.
  - rewrite (GetFile_one_metadata_call file _ fl1 Hf1).
    f_equal. by apply GetFile_one_metadata_call with fl.
Qed.

(** C3, as the code has it: once the metadata call has returned the server
    path p, the binary fetch is a GET on base/file/bot{token}/{p}.  It is
    the next call after the metadata call whenever that URL parses, and
    the only request the resolution issues. *)
Theorem GetFile_fetches_file_endpoint file σ fl :
  let meta := metadata_of FileByID σ fl in
  let p := FilePath meta.1 in
  let req := {| Method := "GET";
                Request_URL :=
                  URL (bot σ) +:+ "/file/bot" +:+ Token (bot σ) +:+ "/" +:+ p |} in
  let σ' := (GetFile FileByID parseURL Do wrapError file σ).2 in
  files σ !! file = Some fl →
  meta.2 = None →
  (parseURL (Request_URL req) = None →
     ∃ rest, io σ' = io σ ++ CallFileByID (FileID fl) :: CallDo req :: rest
             ∧ Forall (λ ev, ∃ body, ev = CallClose body) rest) ∧
  (∀ r, CallDo r ∈ drop (length (io σ)) (io σ') → r = req).
Proof.
  cbv zeta. intros Hf Hm. split.
  - intros Hu.
    change (parseURL (Request_URL (request σ fl)) = None) in Hu.
    change {| Method := "GET";
              Request_URL :=
                URL (bot σ) +:+ "/file/bot" +:+ Token (bot σ) +:+ "/"
                +:+ FilePath (metadata σ fl).1 |} with (request σ fl).
    destruct (GetFile_paths file σ fl Hf) as [| | | |r|r]; simpl;
      try congruence.
    + exists []. rewrite <- app_assoc. split; [done | constructor].
    + exists []. rewrite <- app_assoc. split; [done | constructor].
    + exists [CallClose (Body r)]. rewrite <- !app_assoc. split; [done |].
      repeat constructor. by exists (Body r).
    + exists []. rewrite <- app_assoc. split; [done | constructor].
  - intros r. destruct (GetFile_log file σ fl Hf) as (evs & -> & Hevs).
    rewrite drop_app_length. intros Hin.
    apply elem_of_cons in Hin as [Hin|Hin]; [done |].
    rewrite Forall_forall in Hevs. exact (Hevs _ Hin).
Qed.

(** C4, as the code has it: [GetFile] treats every reference as a
    remote-id.  Its result and its calls depend on the reference through
    [FileID] alone, whatever [FileLocal], [FileURL] and [FileReader] hold;
    the calls are the metadata call for [FileID], then at most the GET on
    the file endpoint and the closing of its response body; and a stream
    it returns is the body of that response. *)
Theorem GetFile_ignores_reference_form file σ fl fl' :
  let result := GetFile FileByID parseURL Do wrapError file σ in
  let result' := GetFile FileByID parseURL Do wrapError file (store file fl' σ) in
  let req := binary_request FileByID σ fl in
  files σ !! file = Some fl →
  FileID fl' = FileID fl →
  result'.1 = result.1 ∧
  io result'.2 = io result.2 ∧
  (∃ evs, io result.2 = io σ ++ CallFileByID (FileID fl) :: evs
          ∧ Forall (fetch_or_close req) evs) ∧
  (∀ rc err, result.1 = Return (Some rc) err →
     ∃ r, Do (io (after_metadata FileByID file fl σ)) req = (Some r, None)
          ∧ StatusCode r = StatusOK ∧ rc = Body r ∧ err = None).
Proof.
  cbv zeta. intros Hf Hid.
  assert (files (store file fl' σ) !! file = Some fl') as Hf'
    by apply lookup_insert_eq.
  assert (metadata (store file fl' σ) fl' = metadata σ fl) as Hmeta
    by (unfold metadata_of; simpl; by rewrite Hid).
  assert (request (store file fl' σ) fl' = request σ fl) as Hreq
    by (unfold binary_request; by rewrite Hmeta).
  assert (io (saved file fl' (store file fl' σ)) = io (saved file fl σ)) as Hio
    by (unfold after_metadata; simpl; by rewrite Hid).
  split; [| split; [| split]].
  - destruct (GetFile_paths file σ fl Hf)
      as [e Hm|e Hm Hu|resp e Hm Hu Hd|Hm Hu Hd|r Hm Hu Hd Hs|r Hm Hu Hd Hs];
      rewrite <- Hmeta in Hm; try rewrite <- Hreq in Hu;
      try rewrite <- Hreq, <- Hio in Hd.
    + by rewrite (GetFile_metadata_error _ _ _ _ Hf' Hm).
    + by rewrite (GetFile_bad_url _ _ _ _ Hf' Hm Hu).
    + by rewrite (GetFile_do_error _ _ _ _ _ Hf' Hm Hu Hd).
    + by rewrite (GetFile_nil_response _ _ _ Hf' Hm Hu Hd).
    + by rewrite (GetFile_bad_status _ _ _ _ Hf' Hm Hu Hd Hs).
    + by rewrite (GetFile_ok _ _ _ _ Hf' Hm Hu Hd Hs).
  - destruct (GetFile_paths file σ fl Hf)
      as [e Hm|e Hm Hu|resp e Hm Hu Hd|Hm Hu Hd|r Hm Hu Hd Hs|r Hm Hu Hd Hs];
      rewrite <- Hmeta in Hm; try rewrite <- Hreq in Hu;
      try rewrite <- Hreq, <- Hio in Hd.
    + rewrite (GetFile_metadata_error _ _ _ _ Hf' Hm). simpl. by rewrite Hid.
    + rewrite (GetFile_bad_url _ _ _ _ Hf' Hm Hu). exact Hio.
    + rewrite (GetFile_do_error _ _ _ _ _ Hf' Hm Hu Hd). simpl.
      by rewrite Hreq, Hid.
    + rewrite (GetFile_nil_response _ _ _ Hf' Hm Hu Hd). simpl.
      by rewrite Hreq, Hid.
    + rewrite (GetFile_bad_status _ _ _ _ Hf' Hm Hu Hd Hs). simpl.
      by rewrite Hreq, Hid.
    + rewrite (GetFile_ok _ _ _ _ Hf' Hm Hu Hd Hs). simpl.
      by rewrite Hreq, Hid.
  - by apply GetFile_log.
  - intros rc err Hret.
    destruct (GetFile_paths file σ fl Hf) as [| | | | |r Hm Hu Hd Hs];
      simplify_eq. by exists r.
Qed.

(** C5: every failure of [GetFile] is returned to its caller.  When the
    metadata call fails, when the request cannot be built, when it cannot
    be executed, and when the binary endpoint answers with a status other
    than 200, the call returns a nil stream and a non-nil error; in the
    last case the error's message ends with the status observed.  The
    wrapper of the two middle cases, [wrapError], is not part of the file:
    it is assumed to keep a non-nil error non-nil. *)
Theorem GetFile_surfaces_failures file σ fl :
  let result := (GetFile FileByID parseURL Do wrapError file σ).1 in
  let meta := metadata_of FileByID σ fl in
  let req := binary_request FileByID σ fl in
  let σ2 := after_metadata FileByID file fl σ in
  (∀ e, wrapError (Some e) ≠ None) →
  files σ !! file = Some fl →
  (∀ e, meta.2 = Some e → result = Return None (Some e)) ∧
  (meta.2 = None →
     (∀ e, parseURL (Request_URL req) = Some e →
        ∃ e', result = Return None (Some e')) ∧
     (parseURL (Request_URL req) = None →
        (∀ resp e, Do (io σ2) req = (resp, Some e) →
           ∃ e', result = Return None (Some e')) ∧
        (∀ r, Do (io σ2) req = (Some r, None) → StatusCode r ≠ StatusOK →
           ∃ e', result = Return None (Some e')
                 ∧ error_message e'
                   = "telebot: expected status 200 but got " +:+ Status r))).
Proof.
  cbv zeta. intros Hwrap Hf.
  assert (∀ e, ∃ e', wrapError (Some e) = Some e') as Hw.
  { intros e. specialize (Hwrap e).
    destruct (wrapError (Some e)) as [e'|]; [by exists e' | done]. }
  split; [| intros Hm; split; [| intros Hu; split]].
  - intros e Hm. by rewrite (GetFile_metadata_error _ _ _ _ Hf Hm).
  - intros e Hu. rewrite (GetFile_bad_url _ _ _ _ Hf Hm Hu). simpl.
    destruct (Hw e) as [e' ->]. by exists e'.
  - intros resp e Hd. rewrite (GetFile_do_error _ _ _ _ _ Hf Hm Hu Hd). simpl.
    destruct (Hw e) as [e' ->]. by exists e'.
  - intros r Hd Hs. rewrite (GetFile_bad_status _ _ _ _ Hf Hm Hu Hd Hs). simpl.
    by exists (Errorf_status (Status r)).
Qed.

(** C7: resolving a reference writes its [FilePath] and nothing else.  The
    bot is as it was, every other [File] object of the heap is as it was,
    and the resolved reference keeps its [FileID], [UniqueID], [FileSize],
    [FileLocal], [FileURL] and [FileReader]. *)
Theorem GetFile_frame file σ :
  let σ' := (GetFile FileByID parseURL Do wrapError file σ).2 in
  bot σ' = bot σ ∧
  (∀ l, l ≠ file → files σ' !! l = files σ !! l) ∧
  match files σ !! file with
  | None => files σ' !! file = None
  | Some fl =>
    ∃ fl', files σ' !! file = Some fl' ∧
      FileID fl' = FileID fl ∧ UniqueID fl' = UniqueID fl ∧
      FileSize fl' = FileSize fl ∧ FileLocal fl' = FileLocal fl ∧
      FileURL fl' = FileURL fl ∧ FileReader fl' = FileReader fl
  end.
Proof.
  cbv zeta. split; [apply GetFile_bot |].
  destruct (files σ !! file) as [fl|] eqn:Hf.
  - destruct (GetFile_heap file σ fl Hf) as [[-> _]|[-> _]].
    + split; [done |]. exists fl. by rewrite Hf.
    + split; [intros l Hl; by rewrite lookup_insert_ne |].
      eexists. rewrite lookup_insert_eq. split; [reflexivity |]. done.
  - rewrite (GetFile_nil _ _ Hf). simpl. by rewrite Hf.
Qed.

(** C9: when the binary endpoint answers with a status other than 200 OK,
    the last thing [GetFile] does before it returns the error is to close
    the response body, and the stream it returns is nil. *)
Theorem GetFile_closes_body_on_bad_status file σ fl r :
  let result := GetFile FileByID parseURL Do wrapError file σ in
  let req := binary_request FileByID σ fl in
  files σ !! file = Some fl →
  (metadata_of FileByID σ fl).2 = None →
  parseURL (Request_URL req) = None →
  Do (io (after_metadata FileByID file fl σ)) req = (Some r, None) →
  StatusCode r ≠ StatusOK →
  result.1 = Return None (Some (Errorf_status (Status r))) ∧
  io result.2
  = io σ ++ [CallFileByID (FileID fl); CallDo req; CallClose (Body r)].
Proof.
  cbv zeta. intros Hf Hm Hu Hd Hs.
  rewrite (GetFile_bad_status _ _ _ _ Hf Hm Hu Hd Hs).
  simpl. by rewrite <- !app_assoc.
Qed.

(** C10: the saving of the path is not tied to the success of the call.
    If the metadata call fails, the heap of [File] objects is left as it
    was, the reference with it; if it succeeds, the [FilePath] of the
    reference is the fetched path when the call returns, whatever becomes
    of the request for the binary: the URL may not parse, the request may
    fail, the status may not be 200. *)
Theorem GetFile_path_saved_without_success file σ fl :
  let result := GetFile FileByID parseURL Do wrapError file σ in
  let meta := metadata_of FileByID σ fl in
  let req := binary_request FileByID σ fl in
  let σ2 := after_metadata FileByID file fl σ in
  files σ !! file = Some fl →
  (∀ e, meta.2 = Some e →
     files result.2 = files σ ∧ files result.2 !! file = Some fl ∧
     result.1 = Return None (Some e)) ∧
  (meta.2 = None →
     FilePath <$> files result.2 !! file = Some (FilePath meta.1) ∧
     files result.2 = <[file := set_FilePath (FilePath meta.1) fl]> (files σ) ∧
     (∀ e, parseURL (Request_URL req) = Some e →
        result.1 = Return None (wrapError (Some e))) ∧
     (parseURL (Request_URL req) = None →
        (∀ resp e, Do (io σ2) req = (resp, Some e) →
           result.1 = Return None (wrapError (Some e))) ∧
        (∀ r, Do (io σ2) req = (Some r, None) → StatusCode r ≠ StatusOK →
           result.1 = Return None (Some (Errorf_status (Status r)))))).
Proof.
  cbv zeta. intros Hf. split.
  - intros e Hm. by rewrite (GetFile_metadata_error _ _ _ _ Hf Hm).
  - intros Hm.
    assert (files (getFile file σ).2
            = <[file := set_FilePath (FilePath (metadata σ fl).1) fl]> (files σ))
      as Hsaved.
    { destruct (GetFile_heap file σ fl Hf) as [[_ [e He]]|[-> _]];
        [congruence | done]. }
    split; [| split; [exact Hsaved | split; [| intros Hu; split]]].
    + rewrite Hsaved, lookup_insert_eq. reflexivity.
    + intros e Hu. by rewrite (GetFile_bad_url _ _ _ _ Hf Hm Hu).
    + intros resp e Hd. by rewrite (GetFile_do_error _ _ _ _ _ Hf Hm Hu Hd).
    + intros r Hd Hs. by rewrite (GetFile_bad_status _ _ _ _ Hf Hm Hu Hd Hs).
Qed.

End GetFileProperties.

(** *** GetFile on concrete references *)

Lemma GetFile_twice_two_metadata_calls_witness :
  files st0 !! 1%positive = Some photo ∧
  metadata_calls
    (io (GetFile FileByID_ok parseURL_ok Do_ok wrapError_telebot 1%positive
           (GetFile FileByID_ok parseURL_ok Do_ok wrapError_telebot 1%positive
              st0).2).2)
  = 2%nat.
Proof.
  split; [reflexivity |].
  apply (GetFile_twice_two_metadata_calls FileByID_ok parseURL_ok Do_ok
           wrapError_telebot 1%positive st0 photo).
  reflexivity.
Defined.

(** C2 fails on the code: the second resolution of a remote-id reference
    finds the path cached by the first and issues the metadata call again. *)
Lemma GetFile_second_resolution_calls_again :
  let σ1 := (GetFile FileByID_ok parseURL_ok Do_ok wrapError_telebot
               1%positive st0).2 in
  let σ2 := (GetFile FileByID_ok parseURL_ok Do_ok wrapError_telebot
               1%positive σ1).2 in
  is_remote_id photo ∧
  files st0 !! 1%positive = Some photo ∧
  FilePath <$> files σ1 !! 1%positive = Some "photos/AgADBA" ∧
  io σ2
  = [CallFileByID "AgADBA";
     CallDo {| Method := "GET";
               Request_URL :=
                 "https://api.telegram.org/file/botTOKEN_HERE/photos/AgADBA" |};
     CallFileByID "AgADBA";
     CallDo {| Method := "GET";
               Request_URL :=
                 "https://api.telegram.org/file/botTOKEN_HERE/photos/AgADBA" |}] ∧
  metadata_calls (io σ2) = 2%nat ∧
  metadata_calls (io σ2) ≠ 1%nat.
Proof.
  cbv zeta. split; [| repeat split; try reflexivity].
  - repeat split; done.
  - vm_compute. discriminate.
Qed.

Lemma GetFile_fetches_file_endpoint_witness :
  ∃ rest,
    io (GetFile FileByID_ok parseURL_ok Do_ok wrapError_telebot 1%positive st0).2
    = [CallFileByID "AgADBA";
       CallDo {| Method := "GET";
                 Request_URL :=
                   "https://api.telegram.org/file/botTOKEN_HERE/photos/AgADBA" |}]
      ++ rest.
Proof.
  destruct (GetFile_fetches_file_endpoint FileByID_ok parseURL_ok Do_ok
              wrapError_telebot 1%positive st0 photo) as [H _];
    [reflexivity | reflexivity |].
  destruct H as [rest [H _]]; [reflexivity |].
  exists rest. exact H.
Defined.

(** C3 fails on the code: the request goes to base/file/bot{token}/{p};
    no request goes to base/bot{token}/{p}. *)
Lemma GetFile_url_has_file_segment :
  io (GetFile FileByID_ok parseURL_ok Do_ok wrapError_telebot 1%positive st0).2
  = [CallFileByID "AgADBA";
     CallDo {| Method := "GET";
               Request_URL :=
                 "https://api.telegram.org/file/botTOKEN_HERE/photos/AgADBA" |}] ∧
  (FileByID_ok [] telegram_bot "AgADBA").2 = None ∧
  spec_binary_url telegram_bot (FilePath (FileByID_ok [] telegram_bot "AgADBA").1)
  = "https://api.telegram.org/botTOKEN_HERE/photos/AgADBA" ∧
  CallDo {| Method := "GET";
            Request_URL :=
              spec_binary_url telegram_bot
                (FilePath (FileByID_ok [] telegram_bot "AgADBA").1) |}
  ∉ io (GetFile FileByID_ok parseURL_ok Do_ok wrapError_telebot 1%positive st0).2.
Proof.
  repeat split; try reflexivity.
  vm_compute. intros H.
  repeat (apply elem_of_cons in H as [H|H]; [discriminate H |]).
  by apply elem_of_nil in H.
Qed.

Lemma GetFile_ignores_reference_form_witness :
  files st0 !! 2%positive = Some local_file ∧
  FileID stream_file = FileID local_file ∧
  (GetFile FileByID_any parseURL_ok Do_ok wrapError_telebot 2%positive
     (store 2%positive stream_file st0)).1
  = (GetFile FileByID_any parseURL_ok Do_ok wrapError_telebot 2%positive st0).1.
Proof.
  split; [reflexivity |]. split; [reflexivity |].
  apply (GetFile_ignores_reference_form FileByID_any parseURL_ok Do_ok
           wrapError_telebot 2%positive st0 local_file stream_file);
    reflexivity.
Defined.

(** C4 fails on the code: a local-path, a remote-url and an open-stream
    reference are each resolved like a remote-id.  Against a server that
    rejects the empty file id all three fail on the metadata call; against
    one that answers it, all three yield the body of the same GET on the
    file endpoint.  No file is opened, [FileURL] is not requested, and the
    stream of the open-stream reference (42) is not what comes back. *)
Lemma GetFile_other_forms_resolved_as_remote_id :
  let rejected :=
    (Return None (Some (ErrCollaborator "telegram: file_id not specified (400)")),
     log (CallFileByID "") st0) in
  let fetched (l : loc) :=
    (Return (Some 7%nat) None,
     {| bot := telegram_bot;
        files := <[l := set_FilePath "documents/file_0"
                          (default photo (files st0 !! l))]> (files st0);
        io := [CallFileByID "";
               CallDo {| Method := "GET";
                         Request_URL :=
                           "https://api.telegram.org/file/botTOKEN_HERE/documents/file_0"
                      |}] |}) in
  (is_local_path local_file ∧ files st0 !! 2%positive = Some local_file) ∧
  (is_remote_url url_file ∧ files st0 !! 3%positive = Some url_file) ∧
  (is_open_stream stream_file ∧ files st0 !! 4%positive = Some stream_file) ∧
  GetFile FileByID_ok parseURL_ok Do_ok wrapError_telebot 2%positive st0 = rejected ∧
  GetFile FileByID_ok parseURL_ok Do_ok wrapError_telebot 3%positive st0 = rejected ∧
  GetFile FileByID_ok parseURL_ok Do_ok wrapError_telebot 4%positive st0 = rejected ∧
  GetFile FileByID_any parseURL_ok Do_ok wrapError_telebot 2%positive st0
  = fetched 2%positive ∧
  GetFile FileByID_any parseURL_ok Do_ok wrapError_telebot 3%positive st0
  = fetched 3%positive ∧
  GetFile FileByID_any parseURL_ok Do_ok wrapError_telebot 4%positive st0
  = fetched 4%positive ∧
  FileReader stream_file = Some 42%nat.
Proof.
  cbv zeta. unfold is_local_path, is_remote_url, is_open_stream.
  repeat split; try reflexivity; done.
Qed.

Lemma GetFile_surfaces_failures_witness :
  (∀ e, wrapError_telebot (Some e) ≠ None) ∧
  files st0 !! 1%positive = Some photo ∧
  ∃ e',
    (GetFile FileByID_ok parseURL_ok Do_not_found wrapError_telebot 1%positive
       st0).1 = Return None (Some e')
    ∧ error_message e' = "telebot: expected status 200 but got 404 Not Found".
Proof.
  split; [intros e; discriminate |]. split; [reflexivity |].
  destruct (GetFile_surfaces_failures FileByID_ok parseURL_ok Do_not_found
              wrapError_telebot 1%positive st0 photo) as [_ H];
    [intros e; discriminate | reflexivity |].
  destruct H as [_ H]; [reflexivity |].
  destruct H as [_ H]; [reflexivity |].
  apply (H _ eq_refl). discriminate.
Defined.

Lemma GetFile_closes_body_on_bad_status_witness :
  io (GetFile FileByID_ok parseURL_ok Do_not_found wrapError_telebot 1%positive
        st0).2
  = [CallFileByID "AgADBA";
     CallDo {| Method := "GET";
               Request_URL :=
                 "https://api.telegram.org/file/botTOKEN_HERE/photos/AgADBA" |};
     CallClose 8%nat].
Proof.
  apply (GetFile_closes_body_on_bad_status FileByID_ok parseURL_ok Do_not_found
           wrapError_telebot 1%positive st0 photo
           {| Status := "404 Not Found"; StatusCode := 404; Body := 8%nat |});
    try reflexivity.
  discriminate.
Defined.

Lemma GetFile_path_saved_without_success_witness :
  files st0 !! 1%positive = Some photo ∧
  FilePath photo = "" ∧
  (GetFile FileByID_ok parseURL_ok Do_refused wrapError_telebot 1%positive
     st0).1
  = Return None
      (Some (ErrCollaborator "telebot: dial tcp: connection refused")) ∧
  FilePath
    <$> files (GetFile FileByID_ok parseURL_ok Do_refused wrapError_telebot
                 1%positive st0).2 !! 1%positive
  = Some "photos/AgADBA" ∧
  FilePath
    <$> files (GetFile FileByID_ok parseURL_ok Do_not_found wrapError_telebot
                 1%positive st0).2 !! 1%positive
  = Some "photos/AgADBA" ∧
  files (GetFile FileByID_down parseURL_ok Do_ok wrapError_telebot 1%positive
           st0).2
  = files st0.
Proof.
  split; [reflexivity |]. split; [reflexivity |]. split; [| split; [| split]].
  - destruct (GetFile_path_saved_without_success FileByID_ok parseURL_ok
                Do_refused wrapError_telebot 1%positive st0 photo eq_refl)
      as [_ H].
    destruct H as (_ & _ & _ & H); [reflexivity |].
    destruct H as [H _]; [reflexivity |]. exact (H None _ eq_refl).
  - destruct (GetFile_path_saved_without_success FileByID_ok parseURL_ok
                Do_refused wrapError_telebot 1%positive st0 photo eq_refl)
      as [_ H].
    destruct H as [H _]; [reflexivity |]. exact H.
  - destruct (GetFile_path_saved_without_success FileByID_ok parseURL_ok
                Do_not_found wrapError_telebot 1%positive st0 photo eq_refl)
      as [_ H].
    destruct H as [H _]; [reflexivity |]. exact H.
  - destruct (GetFile_path_saved_without_success FileByID_down parseURL_ok
                Do_ok wrapError_telebot 1%positive st0 photo eq_refl)
      as [H _].
    destruct (H _ eq_refl) as [H' _]. exact H'.
Defined.

(** ** Update *)

Lemma populated_when {A} (b : bool) (x : A) : populated (when b x) = b.
Proof. by destruct b. Qed.

Lemma count_true_le (l : list bool) : (count_true l ≤ length l)%nat.
Proof. unfold count_true. apply length_filter. Qed.

(** C8, as the code has it: the thirteen variant fields of an [Update] are
    independent nil-able pointers.  An instance has between 0 and 13 of
    them populated, and every choice of populated fields is the choice of
    some instance; nothing makes it exactly one. *)
Theorem Update_variants_independent (flags : list bool) :
  length flags = 13%nat →
  (∀ u, (populated_count u ≤ 13)%nat) ∧
  ∃ u, variant_flags u = flags ∧ populated_count u = count_true flags.
Proof.
  intros Hlen. split.
  - intros u. apply (count_true_le (variant_flags u)).
  - exists (update_of_flags 0 flags).
    assert (variant_flags (update_of_flags 0 flags) = flags) as Hflags.
    { do 14 (destruct flags as [|? flags]; try discriminate Hlen).
      unfold variant_flags, update_of_flags. simpl.
      by rewrite !populated_when. }
    split; [exact Hflags |]. unfold populated_count. by rewrite Hflags.
Qed.

Lemma Update_variants_independent_witness :
  ∃ u, variant_flags u
       = [true; false; false; false; true; false; false; false; false; false;
          false; false; false]
       ∧ populated_count u = 2%nat.
Proof.
  apply (Update_variants_independent
           [true; false; false; false; true; false; false; false; false; false;
            false; false; false]).
  reflexivity.
Defined.

(** C8 fails on the type: the zero value of the struct has no variant
    field populated, and an instance can have two. *)
Lemma Update_without_and_with_two_variants :
  populated_count (bare_update 0) = 0%nat ∧
  populated_count two_variant_update = 2%nat ∧
  populated (Update_Message two_variant_update) = true ∧
  populated (Update_Callback two_variant_update) = true.
Proof. repeat split; reflexivity. Qed.

(** ** Command extraction *)

Lemma break_at_stop stop a rest :
  stop a = true → break_at stop (String a rest) = ("", String a rest).
Proof. intros H. simpl. by rewrite H. Qed.

Lemma break_at_token stop tok rest :
  all_chars (λ a, negb (stop a)) tok = true →
  break_at stop rest = ("", rest) →
  break_at stop (tok +:+ rest) = (tok, rest).
Proof.
  intros Htok Hrest. induction tok as [|a tok IH]; simpl in *.
  - exact Hrest.
  - apply andb_prop in Htok as [Ha Htok].
    apply negb_true_iff in Ha. rewrite Ha, (IH Htok). reflexivity.
Qed.

Lemma break_at_all stop tok :
  all_chars (λ a, negb (stop a)) tok = true → break_at stop tok = (tok, "").
Proof.
  intros Htok. induction tok as [|a tok IH]; simpl in *; [done |].
  apply andb_prop in Htok as [Ha Htok].
  apply negb_true_iff in Ha. rewrite Ha, (IH Htok). reflexivity.
Qed.

Lemma whitespace_ends_token w : is_whitespace w = true → ends_token w = true.
Proof. intros H. unfold ends_token. by rewrite H. Qed.

Lemma extract_command_prefix s :
  extract_command ("/" +:+ s)
  = let '(token, after) := break_at ends_token s in
    Some (token, drop_separator (drop_botname after)).
Proof. reflexivity. Qed.

Lemma drop_botname_at s :
  drop_botname ("@" +:+ s) = (break_at is_whitespace s).2.
Proof. reflexivity. Qed.

(** C6: for a text that is the command prefix, a token free of whitespace
    and of [@], then nothing, or a whitespace character and a payload,
    with or without an [@botname] suffix on the token, the discriminator
    extracted is the token and the payload is everything after the
    separator; the message is classified under the token and its
    [Payload] field holds the payload. *)
Theorem extract_command_token_and_payload (tok name payload : string) (w : ascii) :
  all_chars (λ a, negb (ends_token a)) tok = true →
  all_chars (λ a, negb (is_whitespace a)) name = true →
  is_whitespace w = true →
  extract_command ("/" +:+ tok) = Some (tok, "") ∧
  extract_command ("/" +:+ tok +:+ String w payload) = Some (tok, payload) ∧
  extract_command ("/" +:+ tok +:+ "@" +:+ name) = Some (tok, "") ∧
  extract_command ("/" +:+ tok +:+ "@" +:+ name +:+ String w payload)
  = Some (tok, payload) ∧
  ∀ m, Message_Text m = "/" +:+ tok +:+ String w payload
       ∨ Message_Text m = "/" +:+ tok +:+ "@" +:+ name +:+ String w payload →
    (classify_text m).1 = Some tok ∧
    Message_Payload (classify_text m).2 = payload ∧
    Message_Text (classify_text m).2 = Message_Text m.
Proof.
  intros Htok Hname Hw.
  assert (extract_command ("/" +:+ tok +:+ String w payload) = Some (tok, payload))
    as Hplain.
  { rewrite extract_command_prefix.
    rewrite (break_at_token ends_token tok (String w payload) Htok);
      [| by apply break_at_stop, whitespace_ends_token].
    simpl. destruct (Ascii.eqb w botname_delimiter) eqn:Hat; [| done].
    apply Ascii.eqb_eq in Hat. subst w. discriminate Hw. }
  assert (extract_command ("/" +:+ tok +:+ "@" +:+ name +:+ String w payload)
          = Some (tok, payload)) as Hsuffix.
  { rewrite extract_command_prefix.
    rewrite (break_at_token ends_token tok ("@" +:+ name +:+ String w payload)
               Htok); [| done].
    rewrite drop_botname_at.
    rewrite (break_at_token is_whitespace name (String w payload) Hname);
      [done | by apply break_at_stop]. }
  split; [| split; [exact Hplain | split; [| split; [exact Hsuffix |]]]].
  - rewrite extract_command_prefix. by rewrite (break_at_all ends_token tok Htok).
  - rewrite extract_command_prefix.
    rewrite (break_at_token ends_token tok ("@" +:+ name) Htok); [| done].
    rewrite drop_botname_at. by rewrite (break_at_all is_whitespace name Hname).
  - intros m [Hm|Hm]; unfold classify_text; rewrite Hm;
      [rewrite Hplain | rewrite Hsuffix]; done.
Qed.

Lemma extract_command_token_and_payload_witness :
  extract_command "/start foo bar" = Some ("start", "foo bar") ∧
  extract_command "/start@botname foo" = Some ("start", "foo").
Proof.
  split.
  - apply (extract_command_token_and_payload "start" "botname" "foo bar" " ");
      reflexivity.
  - apply (extract_command_token_and_payload "start" "botname" "foo" " ");
      reflexivity.
Defined.

(** ** The long poller *)

Lemma app_eq_app_cons {A} (l1 l2 t1 t2 : list A) (x : A) :
  l1 ++ l2 = t1 ++ x :: t2 →
  (∃ k, l1 = t1 ++ x :: k ∧ t2 = k ++ l2) ∨ (∃ k, t1 = l1 ++ k ∧ l2 = k ++ x :: t2).
Proof.
  revert t1. induction l1 as [|a l1 IH]; intros t1 H; simpl in *.
  - right. by exists t1.
  - destruct t1 as [|b t1]; simpl in *.
    + injection H as -> <-. left. by exists l1.
    + injection H as -> H. destruct (IH t1 H) as [[k [-> ->]]|[k [-> ->]]].
      * left. by exists k.
      * right. by exists k.
Qed.

Lemma pushed_app t t' : pushed (t ++ t') = pushed t ++ pushed t'.
Proof. apply omap_app. Qed.

Lemma pushed_pushes us : pushed (EvPush <$> us) = us.
Proof. induction us as [|u us IH]; simpl; [done | by f_equal]. Qed.

Lemma insert_by_id_perm u us : insert_by_id u us ≡ₚ u :: us.
Proof.
  induction us as [|v vs IH]; simpl; [done |].
  case_bool_decide; [done |]. rewrite IH. apply Permutation_swap.
Qed.

Lemma ascending_perm us : ascending us ≡ₚ us.
Proof.
  induction us as [|u us IH]; simpl; [done |].
  rewrite insert_by_id_perm. by constructor.
Qed.

Lemma max_id_first u us : Update_ID u ≤ max_id u us.
Proof. induction us as [|v vs IH]; simpl; lia. Qed.

Lemma max_id_ge u us v : v ∈ u :: us → Update_ID v ≤ max_id u us.
Proof.
  intros Hin. apply elem_of_cons in Hin as [->|Hin]; [apply max_id_first |].
  induction us as [|w ws IH]; [by apply elem_of_nil in Hin |].
  apply elem_of_cons in Hin as [->|Hin]; simpl; [lia |].
  specialize (IH Hin). lia.
Qed.

(** The shape of one iteration's events. *)

Lemma iteration_head τ c o evs ph c' :
  iteration τ c o = (evs, ph, c') →
  ∃ rest, evs = EvStopped :: rest ∨ ∃ r, evs = EvFetch c τ r :: rest.
Proof.
  destruct o as [|[[|u us]| |]]; simpl; intros [= <- <- <-]; eauto.
Qed.

Lemma pushes_then_cursor_inv us c (ev : PollEvent) :
  ev ∈ (EvPush <$> us) ++ [EvCursor c] →
  (∃ u, ev = EvPush u ∧ u ∈ us) ∨ ev = EvCursor c.
Proof.
  intros Hin. apply elem_of_app in Hin as [Hin|Hin].
  - apply list_elem_of_fmap in Hin as (u & -> & Hin). eauto.
  - apply list_elem_of_singleton in Hin. eauto.
Qed.

Lemma iteration_fetch τ c o evs ph c' e1 c0 τ0 r e2 :
  iteration τ c o = (evs, ph, c') →
  evs = e1 ++ EvFetch c0 τ0 r :: e2 →
  e1 = [] ∧ c0 = c.
Proof.
  intros Hit Hsplit. destruct e1 as [|ev e1]; simpl in Hsplit.
  - split; [done |]. subst evs.
    destruct o as [|[[|u us]| |]]; simpl in Hit; by simplify_eq.
  - exfalso. subst evs.
    assert (EvFetch c0 τ0 r ∈ e1 ++ EvFetch c0 τ0 r :: e2) as Hin
      by (apply elem_of_app; right; left).
    destruct o as [|[[|u us]| |]]; simpl in Hit; injection Hit as _ Hevs _ _.
    + rewrite <- Hevs in Hin. by apply elem_of_nil in Hin.
    + rewrite <- Hevs in Hin. by apply elem_of_nil in Hin.
    + rewrite <- Hevs in Hin.
      apply pushes_then_cursor_inv in Hin as [(v & Hv & _)|Hv]; discriminate Hv.
    + rewrite <- Hevs in Hin. apply list_elem_of_singleton in Hin. discriminate Hin.
    + rewrite <- Hevs in Hin. apply list_elem_of_singleton in Hin. discriminate Hin.
Qed.

Lemma iteration_cursor τ c o evs ph c' k c1 t2 :
  iteration τ c o = (evs, ph, c') →
  evs = k ++ EvCursor c1 :: t2 →
  ∃ u us, k = EvFetch c τ (Batch (u :: us)) :: (EvPush <$> ascending (u :: us))
          ∧ t2 = [] ∧ c1 = max_id u us + 1 ∧ c' = c1.
Proof.
  intros Hit Hsplit.
  assert (EvCursor c1 ∈ evs) as Hin
    by (rewrite Hsplit; apply elem_of_app; right; left).
  destruct o as [|[[|u us]| |]]; simpl in Hit; injection Hit as <- <- <-.
  - apply list_elem_of_singleton in Hin. discriminate Hin.
  - apply list_elem_of_singleton in Hin. discriminate Hin.
  - clear Hin. exists u, us.
    apply (app_eq_app_cons
             (EvFetch c τ (Batch (u :: us)) :: (EvPush <$> ascending (u :: us)))
             [EvCursor (max_id u us + 1)])
      in Hsplit as [(k' & Hk & _)|(k' & -> & Hk)].
    + exfalso.
      assert (EvCursor c1 ∈ EvFetch c τ (Batch (u :: us))
                                :: (EvPush <$> ascending (u :: us))) as Hin
        by (rewrite Hk; apply elem_of_app; right; left).
      apply elem_of_cons in Hin as [Hin|Hin]; [discriminate Hin |].
      apply list_elem_of_fmap in Hin as (v & Hv & _). discriminate Hv.
    + destruct k' as [|ev [|ev' k']]; simplify_eq/=.
      by rewrite app_nil_r.
  - apply elem_of_cons in Hin as [Hin|Hin]; [discriminate Hin |].
    apply list_elem_of_singleton in Hin. discriminate Hin.
  - apply elem_of_cons in Hin as [Hin|Hin]; [discriminate Hin |].
    apply list_elem_of_singleton in Hin. discriminate Hin.
Qed.

Lemma pushed_batch_events c τ r us c' :
  pushed (EvFetch c τ r :: (EvPush <$> us) ++ [EvCursor c']) = us.
Proof.
  transitivity (pushed ([EvFetch c τ r] ++ (EvPush <$> us) ++ [EvCursor c']));
    [done |].
  rewrite !pushed_app, pushed_pushes. simpl. apply app_nil_r.
Qed.

(** What an iteration pushes when the transport honours the offset. *)
Lemma iteration_pushes τ c o evs ph c' :
  iteration τ c o = (evs, ph, c') →
  match o with
  | Fetched (Batch us) =>
    Forall (λ u, c ≤ Update_ID u) us ∧ NoDup (Update_ID <$> us)
  | _ => True
  end →
  c ≤ c' ∧
  (∀ u, u ∈ pushed evs → c ≤ Update_ID u < c') ∧
  NoDup (Update_ID <$> pushed evs).
Proof.
  intros Hit Hon.
  destruct o as [|[[|u us]| |]]; unfold iteration in Hit;
    injection Hit as <- <- <-;
    try (split; [lia | split; [intros v Hv; by apply elem_of_nil in Hv
                               | simpl; constructor]]).
  destruct Hon as [Hge Hnd]. rewrite pushed_batch_events.
  change (insert_by_id u (ascending us)) with (ascending (u :: us)).
  rewrite Forall_forall in Hge.
  split; [| split].
  - pose proof (Hge u ltac:(left)). pose proof (max_id_first u us). lia.
  - intros v Hv. rewrite ascending_perm in Hv.
    pose proof (Hge v Hv). pose proof (max_id_ge u us v Hv). lia.
  - by rewrite ascending_perm.
Qed.

(** The invariant of the loop when the transport honours the offset:
    everything pushed lies below the cursor, no id was pushed twice, and
    every fetch so far separates what was pushed before it from what was
    pushed after. *)
Lemma poll_step_delivery τ s o :
  match phase s, o with
  | Running, Fetched (Batch us) =>
    Forall (λ u, cursor s ≤ Update_ID u) us ∧ NoDup (Update_ID <$> us)
  | _, _ => True
  end →
  (∀ u, u ∈ pushed (trace s) → Update_ID u < cursor s) →
  pushed_once (trace s) →
  (∀ t1 c τ' r t2, trace s = t1 ++ EvFetch c τ' r :: t2 →
     c ≤ cursor s ∧ (∀ u, u ∈ pushed t1 → Update_ID u < c)
     ∧ (∀ u, u ∈ pushed t2 → c ≤ Update_ID u)) →
  let s' := poll_step τ s o in
  (∀ u, u ∈ pushed (trace s') → Update_ID u < cursor s') ∧
  pushed_once (trace s') ∧
  (∀ t1 c τ' r t2, trace s' = t1 ++ EvFetch c τ' r :: t2 →
     c ≤ cursor s' ∧ (∀ u, u ∈ pushed t1 → Update_ID u < c)
     ∧ (∀ u, u ∈ pushed t2 → c ≤ Update_ID u)).
Proof.
  intros Hon Hbelow Honce Hfetch. unfold poll_step.
  destruct (phase s); [| by auto].
  destruct (iteration τ (cursor s) o) as [[evs ph] c'] eqn:Hit.
  assert (match o with
          | Fetched (Batch us) =>
            Forall (λ u, cursor s ≤ Update_ID u) us ∧ NoDup (Update_ID <$> us)
          | _ => True
          end) as Hon' by (destruct o as [|[]]; done).
  destruct (iteration_pushes _ _ _ _ _ _ Hit Hon') as (Hle & Hnew & Hnd).
  cbv zeta. simpl. split; [| split].
  - intros u Hu. rewrite pushed_app in Hu.
    apply elem_of_app in Hu as [Hu|Hu].
    + specialize (Hbelow u Hu). lia.
    + specialize (Hnew u Hu). lia.
  - unfold pushed_once in *. rewrite pushed_app, fmap_app.
    apply NoDup_app. split; [done | split; [| done]].
    intros id Hold Hin.
    apply list_elem_of_fmap in Hold as (u & -> & Hu).
    apply list_elem_of_fmap in Hin as (v & Heq & Hv).
    specialize (Hbelow u Hu). specialize (Hnew v Hv). lia.
  - intros t1 c τ' r t2 Hsplit.
    apply app_eq_app_cons in Hsplit as [(k & Hk & ->)|(k & -> & Hk)].
    + destruct (Hfetch _ _ _ _ _ Hk) as (Hc & Hbefore & Hafter).
      split; [lia | split; [done |]].
      intros u Hu. rewrite pushed_app in Hu.
      apply elem_of_app in Hu as [Hu|Hu]; [by apply Hafter |].
      specialize (Hnew u Hu). lia.
    + destruct (iteration_fetch _ _ _ _ _ _ _ _ _ _ _ Hit Hk) as [-> ->].
      rewrite app_nil_r. split; [done | split; [done |]].
      intros u Hu. apply Hnew. rewrite Hk. exact Hu.
Qed.

Lemma poll_step_cursor τ s o :
  (∀ t1 c t2, trace s = t1 ++ EvCursor c :: t2 →
     (∃ t0 c0 τ' u us,
        t1 = t0 ++ EvFetch c0 τ' (Batch (u :: us))
                     :: (EvPush <$> ascending (u :: us))
        ∧ c = max_id u us + 1) ∧
     (t2 = [] ∧ cursor s = c
      ∨ ∃ t3, t2 = EvStopped :: t3 ∨ ∃ τ' r, t2 = EvFetch c τ' r :: t3)) →
  let s' := poll_step τ s o in
  (∀ t1 c t2, trace s' = t1 ++ EvCursor c :: t2 →
     (∃ t0 c0 τ' u us,
        t1 = t0 ++ EvFetch c0 τ' (Batch (u :: us))
                     :: (EvPush <$> ascending (u :: us))
        ∧ c = max_id u us + 1) ∧
     (t2 = [] ∧ cursor s' = c
      ∨ ∃ t3, t2 = EvStopped :: t3 ∨ ∃ τ' r, t2 = EvFetch c τ' r :: t3)).
Proof.
  intros Hinv. unfold poll_step.
  destruct (phase s); [| by auto].
  destruct (iteration τ (cursor s) o) as [[evs ph] c'] eqn:Hit.
  cbv zeta. simpl. intros t1 c t2 Hsplit.
  apply app_eq_app_cons in Hsplit as [(k & Hk & ->)|(k & -> & Hk)].
  - destruct (Hinv _ _ _ Hk) as [Hbatch Hnext]. split; [exact Hbatch |].
    right. destruct Hnext as [[-> Hc]|(t3 & [->|(τ' & r & ->)])].
    + destruct (iteration_head _ _ _ _ _ _ Hit) as (rest & [->|(r & ->)]).
      * exists rest. by left.
      * exists rest. right. exists τ, r. by rewrite Hc.
    + exists (t3 ++ evs). by left.
    + exists (t3 ++ evs). right. by exists τ', r.
  - destruct (iteration_cursor _ _ _ _ _ _ _ _ _ Hit Hk)
      as (u & us & -> & -> & -> & ->).
    split; [| by left]. by exists (trace s), (cursor s), τ, u, us.
Qed.

Lemma nil_not_split {A} (t1 t2 : list A) (x : A) : [] ≠ t1 ++ x :: t2.
Proof. by destruct t1. Qed.

Lemma long_poller_invariant τ obs s :
  honours_offset τ s obs →
  (∀ u, u ∈ pushed (trace s) → Update_ID u < cursor s) →
  pushed_once (trace s) →
  (∀ t1 c τ' r t2, trace s = t1 ++ EvFetch c τ' r :: t2 →
     c ≤ cursor s ∧ (∀ u, u ∈ pushed t1 → Update_ID u < c)
     ∧ (∀ u, u ∈ pushed t2 → c ≤ Update_ID u)) →
  pushed_once (trace (foldl (poll_step τ) s obs)) ∧
  no_redelivery (trace (foldl (poll_step τ) s obs)).
Proof.
  revert s. induction obs as [|o obs IH]; intros s Hon Hbelow Honce Hfetch.
  - simpl. split; [done |]. intros t1 c τ' r t2 Hsplit.
    by destruct (Hfetch _ _ _ _ _ Hsplit) as (_ & ? & ?).
  - simpl in Hon. destruct Hon as [Hnow Hrest].
    destruct (poll_step_delivery τ s o Hnow Hbelow Honce Hfetch)
      as (Hbelow' & Honce' & Hfetch').
    simpl. by apply IH.
Qed.

Lemma long_poller_cursor τ obs s :
  (∀ t1 c t2, trace s = t1 ++ EvCursor c :: t2 →
     (∃ t0 c0 τ' u us,
        t1 = t0 ++ EvFetch c0 τ' (Batch (u :: us))
                     :: (EvPush <$> ascending (u :: us))
        ∧ c = max_id u us + 1) ∧
     (t2 = [] ∧ cursor s = c
      ∨ ∃ t3, t2 = EvStopped :: t3 ∨ ∃ τ' r, t2 = EvFetch c τ' r :: t3)) →
  cursor_after_batch (trace (foldl (poll_step τ) s obs)).
Proof.
  revert s. induction obs as [|o obs IH]; intros s Hinv.
  - simpl. intros t1 c t2 Hsplit.
    destruct (Hinv _ _ _ Hsplit) as [Hbatch Hnext]. split.
    + destruct Hbatch as (t0 & c0 & τ' & u & us & -> & ->).
      exists t0, c0, τ', u, us. split; [done | split; [done |]].
      intros v Hv. pose proof (max_id_ge u us v Hv). lia.
    + destruct Hnext as [[-> _]|Hnext]; [by left | by right].
  - simpl. apply IH. by apply poll_step_cursor.
Qed.

Lemma poll_step_cursor_le τ s o :
  match phase s, o with
  | Running, Fetched (Batch us) =>
    Forall (λ u, cursor s ≤ Update_ID u) us ∧ NoDup (Update_ID <$> us)
  | _, _ => True
  end →
  cursor s ≤ cursor (poll_step τ s o).
Proof.
  intros Hon. unfold poll_step. destruct (phase s); [| lia].
  destruct (iteration τ (cursor s) o) as [[evs ph] c'] eqn:Hit.
  assert (match o with
          | Fetched (Batch us) =>
            Forall (λ u, cursor s ≤ Update_ID u) us ∧ NoDup (Update_ID <$> us)
          | _ => True
          end) as Hon' by (destruct o as [|[]]; done).
  by destruct (iteration_pushes _ _ _ _ _ _ Hit Hon') as (Hle & _ & _).
Qed.

Lemma honours_offset_app τ s obs1 obs2 :
  honours_offset τ s (obs1 ++ obs2) →
  honours_offset τ s obs1
  ∧ honours_offset τ (foldl (poll_step τ) s obs1) obs2.
Proof.
  revert s. induction obs1 as [|o obs1 IH]; intros s Hon; simpl in *; [done |].
  destruct Hon as [Hnow Hrest]. destruct (IH _ Hrest) as [H1 H2]. done.
Qed.

Lemma long_poller_cursor_le τ obs s :
  honours_offset τ s obs → cursor s ≤ cursor (foldl (poll_step τ) s obs).
Proof.
  revert s. induction obs as [|o obs IH]; intros s Hon; simpl in *; [lia |].
  destruct Hon as [Hnow Hrest].
  pose proof (poll_step_cursor_le τ s o Hnow). specialize (IH _ Hrest). lia.
Qed.

Lemma last_cursor_app t evs :
  last_cursor (t ++ evs) = foldl cursor_event (last_cursor t) evs.
Proof. apply foldl_app. Qed.

Lemma cursor_event_pushes c us :
  foldl cursor_event c (EvPush <$> us) = c.
Proof. induction us as [|u us IH]; simpl; [done | exact IH]. Qed.

(** An iteration leaves the cursor where its own events put it. *)
Lemma iteration_last_cursor τ c o evs ph c' :
  iteration τ c o = (evs, ph, c') → foldl cursor_event c evs = c'.
Proof.
  destruct o as [|[[|u us]| |]]; unfold iteration; intros [= <- <- <-];
    try reflexivity.
  transitivity
    (foldl cursor_event c
       ([EvFetch c τ (Batch (u :: us))] ++ (EvPush <$> ascending (u :: us))
          ++ [EvCursor (max_id u us + 1)])); [done |].
  rewrite !foldl_app, cursor_event_pushes. reflexivity.
Qed.

Lemma poll_step_tracks τ s o :
  cursor s = last_cursor (trace s) →
  fetches_at_cursor (trace s) →
  cursor (poll_step τ s o) = last_cursor (trace (poll_step τ s o))
  ∧ fetches_at_cursor (trace (poll_step τ s o)).
Proof.
  intros Hc Hf. unfold poll_step. destruct (phase s); [| done].
  destruct (iteration τ (cursor s) o) as [[evs ph] c'] eqn:Hit. simpl.
  split.
  - rewrite last_cursor_app, <- Hc.
    symmetry. by apply iteration_last_cursor with τ o ph.
  - intros t1 c τ' r t2 Hsplit.
    apply app_eq_app_cons in Hsplit as [(k & Hk & ->)|(k & -> & Hk)].
    + by apply Hf in Hk.
    + destruct (iteration_fetch _ _ _ _ _ _ _ _ _ _ _ Hit Hk) as [-> ->].
      by rewrite app_nil_r.
Qed.

Lemma long_poller_tracks τ obs s :
  cursor s = last_cursor (trace s) →
  fetches_at_cursor (trace s) →
  cursor (foldl (poll_step τ) s obs)
  = last_cursor (trace (foldl (poll_step τ) s obs))
  ∧ fetches_at_cursor (trace (foldl (poll_step τ) s obs)).
Proof.
  revert s. induction obs as [|o obs IH]; intros s Hc Hf; simpl; [done |].
  destruct (poll_step_tracks τ s o Hc Hf) as [Hc' Hf']. by apply IH.
Qed.




(** ** GetFile: what a call returns, logs and leaves behind *)

Section GetFileCalls.

Variable FileByID : list IOEvent → Bot → string → File * option error.
Variable parseURL : string → option error.
Variable Do : list IOEvent → Request → option Response * option error.
Variable wrapError : option error → option error.

Local Abbreviation getFile := (GetFile FileByID parseURL Do wrapError).
Local Abbreviation metadata := (metadata_of FileByID).
Local Abbreviation saved := (after_metadata FileByID).
Local Abbreviation request := (binary_request FileByID).
Local Abbreviation paths := (GetFile_paths FileByID parseURL Do wrapError).

Ltac new_events_of_path :=
  unfold new_events; simpl; rewrite <- ?app_assoc; simpl;
  rewrite ?drop_app_length.

(** X1: a call that returns hands back a stream or an error, never both
    and, as long as [wrapError] keeps a non-nil error non-nil, never
    neither. *)
Theorem GetFile_stream_xor_error file σ rc err :
  (∀ e, wrapError (Some e) ≠ None) →
  (GetFile FileByID parseURL Do wrapError file σ).1 = Return rc err →
  (is_Some rc ∧ err = None) ∨ (rc = None ∧ is_Some err).
Proof.
  intros Hwrap Hret.
  assert (∀ e, is_Some (wrapError (Some e))) as Hw.
  { intros e. specialize (Hwrap e).
    destruct (wrapError (Some e)); [by eexists | done]. }
  destruct (files σ !! file) as [fl|] eqn:Hf.
  - destruct (paths file σ fl Hf); simplify_eq/=; eauto.
  - rewrite (GetFile_nil _ _ _ _ _ _ Hf) in Hret. discriminate Hret.
Qed.

(** X2: a call on an existing reference returns a stream exactly when the
    metadata call succeeds, the URL parses and the client answers with a
    response, no error and status 200; the stream is then the body of that
    response. *)
Theorem GetFile_returns_stream_iff file σ fl rc :
  let result := GetFile FileByID parseURL Do wrapError file σ in
  let req := binary_request FileByID σ fl in
  files σ !! file = Some fl →
  (∃ err, result.1 = Return (Some rc) err) ↔
  (metadata_of FileByID σ fl).2 = None ∧
  parseURL (Request_URL req) = None ∧
  ∃ r, Do (io (after_metadata FileByID file fl σ)) req = (Some r, None)
       ∧ StatusCode r = StatusOK ∧ Body r = rc.
Proof.
  cbv zeta. intros Hf. split.
  - intros [err Hret].
    destruct (paths file σ fl Hf) as [| | | | |r Hm Hu Hd Hs]; simplify_eq/=.
    split; [done | split; [done |]]. by exists r.
  - intros (Hm & Hu & r & Hd & Hs & <-).
    rewrite (GetFile_ok _ _ _ _ _ _ _ _ Hf Hm Hu Hd Hs). by exists None.
Qed.

(** X3: the stream a call returns is left open: the call closes nothing
    when it returns a stream, and what it logs is the metadata call and
    the request. *)
Theorem GetFile_returned_stream_open file σ fl rc err :
  let result := GetFile FileByID parseURL Do wrapError file σ in
  files σ !! file = Some fl →
  result.1 = Return (Some rc) err →
  new_events σ result.2
  = [CallFileByID (FileID fl); CallDo (binary_request FileByID σ fl)] ∧
  ∀ body, CallClose body ∉ new_events σ result.2.
Proof.
  cbv zeta. intros Hf Hret.
  destruct (paths file σ fl Hf) as [| | | | |r Hm Hu Hd Hs]; simplify_eq/=.
  assert (new_events σ (log (CallDo (request σ fl)) (saved file fl σ))
          = [CallFileByID (FileID fl); CallDo (request σ fl)]) as ->
    by (by new_events_of_path).
  split; [done |]. intros body Hin.
  repeat (apply elem_of_cons in Hin as [Hin|Hin]; [discriminate Hin |]).
  by apply elem_of_nil in Hin.
Qed.

(** X4: a call on an existing reference keeps the log it found and appends
    one of three sequences: the metadata call alone; the metadata call and
    the request; or these two and the closing of the response body, which
    happens only for a response with a status other than 200. *)
Theorem GetFile_new_events_shape file σ fl :
  let σ' := (GetFile FileByID parseURL Do wrapError file σ).2 in
  let req := binary_request FileByID σ fl in
  files σ !! file = Some fl →
  io σ' = io σ ++ new_events σ σ' ∧
  (new_events σ σ' = [CallFileByID (FileID fl)]
   ∨ new_events σ σ' = [CallFileByID (FileID fl); CallDo req]
   ∨ ∃ r, new_events σ σ'
          = [CallFileByID (FileID fl); CallDo req; CallClose (Body r)]
          ∧ Do (io (after_metadata FileByID file fl σ)) req = (Some r, None)
          ∧ StatusCode r ≠ StatusOK).
Proof.
  cbv zeta. intros Hf.
  destruct (paths file σ fl Hf) as [| | | |r Hm Hu Hd Hs|];
    new_events_of_path; (split; [done |]); eauto.
  right. right. by exists r.
Qed.

(** X5: the request for the binary is issued exactly when the metadata
    call succeeded and the URL it yields parses; a failed metadata call or
    a malformed URL ends the call with the metadata call as the only event
    it logged. *)
Theorem GetFile_request_iff file σ fl :
  let σ' := (GetFile FileByID parseURL Do wrapError file σ).2 in
  let req := binary_request FileByID σ fl in
  files σ !! file = Some fl →
  ((∃ r, CallDo r ∈ new_events σ σ') ↔
   (metadata_of FileByID σ fl).2 = None ∧ parseURL (Request_URL req) = None) ∧
  ((∀ r, CallDo r ∉ new_events σ σ') →
   new_events σ σ' = [CallFileByID (FileID fl)]).
Proof.
  cbv zeta. intros Hf.
  assert (∀ r, CallDo r ∉ [CallFileByID (FileID fl)]) as Hnone.
  { intros r Hin. apply list_elem_of_singleton in Hin. discriminate Hin. }
  destruct (paths file σ fl Hf)
    as [e Hm|e Hm Hu|resp e Hm Hu Hd|Hm Hu Hd|r Hm Hu Hd Hs|r Hm Hu Hd Hs];
    new_events_of_path.
  1, 2: split; [split | done].
  - intros [r Hin]. by apply Hnone in Hin.
  - intros [Hm' _]. congruence.
  - intros [r Hin]. by apply Hnone in Hin.
  - intros [_ Hu']. change (parseURL (Request_URL (request σ fl)) = None) in Hu'.
    congruence.
  - split; [split; [done | intros _; exists (request σ fl); right; left] |].
    intros Hno. exfalso. apply (Hno (request σ fl)). right. left.
  - split; [split; [done | intros _; exists (request σ fl); right; left] |].
    intros Hno. exfalso. apply (Hno (request σ fl)). right. left.
  - split; [split; [done | intros _; exists (request σ fl); right; left] |].
    intros Hno. exfalso. apply (Hno (request σ fl)). right. left.
  - split; [split; [done | intros _; exists (request σ fl); right; left] |].
    intros Hno. exfalso. apply (Hno (request σ fl)). right. left.
Qed.


(** X7: the request a call issues is the GET on the file endpoint of the
    path the reference holds when the call returns: what was fetched and
    what is cached agree. *)
Theorem GetFile_request_matches_saved_path file σ fl r :
  let σ' := (GetFile FileByID parseURL Do wrapError file σ).2 in
  files σ !! file = Some fl →
  CallDo r ∈ new_events σ σ' →
  ∃ fl', files σ' !! file = Some fl' ∧
         r = {| Method := MethodGet;
                Request_URL := file_endpoint (bot σ') (FilePath fl') |}.
Proof.
  cbv zeta. intros Hf.
  destruct (paths file σ fl Hf); new_events_of_path; intros Hin.
  1, 2: apply list_elem_of_singleton in Hin; discriminate Hin.
  all: apply elem_of_cons in Hin as [Hin|Hin]; [discriminate Hin |].
  all: apply elem_of_cons in Hin as [Hin|Hin];
    [| repeat (apply elem_of_cons in Hin as [Hin|Hin]; [discriminate Hin |]);
       by apply elem_of_nil in Hin].
  all: injection Hin as ->.
  all: eexists; rewrite lookup_insert_eq; split; [reflexivity |].
  all: reflexivity.
Qed.

(** With collaborators that answer from their arguments alone, a call is
    decided by the bot and the [FileID] of the reference. *)

Lemma GetFile_outcome_stateless file file' σ σ' fl fl' :
  stateless_FileByID FileByID → stateless_Do Do →
  bot σ = bot σ' → FileID fl = FileID fl' →
  files σ !! file = Some fl → files σ' !! file' = Some fl' →
  (getFile file σ).1 = (getFile file' σ').1.
Proof.
  intros HF HD Hb Hid Hf Hf'.
  assert (metadata σ' fl' = metadata σ fl) as Hmeta.
  { unfold metadata_of. rewrite <- Hb, <- Hid. apply HF. }
  assert (request σ' fl' = request σ fl) as Hreq
    by (unfold binary_request; by rewrite Hmeta, Hb).
  assert (∀ h, Do h (request σ' fl') = Do (io (saved file fl σ)) (request σ fl))
    as Hdo by (intros h; rewrite Hreq; apply HD).
  destruct (paths file σ fl Hf)
    as [e Hm|e Hm Hu|resp e Hm Hu Hd|Hm Hu Hd|r Hm Hu Hd Hs|r Hm Hu Hd Hs];
    rewrite <- Hmeta in Hm; try rewrite <- Hreq in Hu;
    try rewrite <- (Hdo (io (saved file' fl' σ'))) in Hd.
  - by rewrite (GetFile_metadata_error _ _ _ _ _ _ _ _ Hf' Hm).
  - by rewrite (GetFile_bad_url _ _ _ _ _ _ _ _ Hf' Hm Hu).
  - by rewrite (GetFile_do_error _ _ _ _ _ _ _ _ _ Hf' Hm Hu Hd).
  - by rewrite (GetFile_nil_response _ _ _ _ _ _ _ Hf' Hm Hu Hd).
  - by rewrite (GetFile_bad_status _ _ _ _ _ _ _ _ Hf' Hm Hu Hd Hs).
  - by rewrite (GetFile_ok _ _ _ _ _ _ _ _ Hf' Hm Hu Hd Hs).
Qed.

Lemma GetFile_files_stateless file σ fl :
  stateless_FileByID FileByID →
  files σ !! file = Some fl →
  files (getFile file σ).2
  = match (FileByID [] (bot σ) (FileID fl)).2 with
    | Some _ => files σ
    | None =>
      <[file := set_FilePath (FilePath (FileByID [] (bot σ) (FileID fl)).1) fl]>
        (files σ)
    end.
Proof.
  intros HF Hf.
  assert (metadata σ fl = FileByID [] (bot σ) (FileID fl)) as Hmeta
    by apply HF.
  destruct (GetFile_heap FileByID parseURL Do wrapError file σ fl Hf)
    as [[-> [e He]]|[-> Hm]]; rewrite Hmeta in *.
  - by rewrite He.
  - by rewrite Hm.
Qed.

(** X8: with collaborators that answer from their arguments alone, a
    second resolution of the same reference returns what the first one
    returned and leaves the [File] objects as the first one left them. *)
Theorem GetFile_twice_same_result file σ fl :
  let first := GetFile FileByID parseURL Do wrapError file σ in
  let second := GetFile FileByID parseURL Do wrapError file first.2 in
  stateless_FileByID FileByID → stateless_Do Do →
  files σ !! file = Some fl →
  second.1 = first.1 ∧ files second.2 = files first.2.
Proof.
  cbv zeta. intros HF HD Hf.
  pose proof (GetFile_bot FileByID parseURL Do wrapError file σ) as Hbot.
  pose proof (GetFile_files_stateless file σ fl HF Hf) as Hfiles.
  destruct (FileByID [] (bot σ) (FileID fl)) as [f [e|]] eqn:Hmeta;
    simpl in Hfiles.
  - assert (files (getFile file σ).2 !! file = Some fl) as Hf1
      by (by rewrite Hfiles).
    split.
    + symmetry. by apply (GetFile_outcome_stateless file file σ _ fl fl).
    + rewrite (GetFile_files_stateless file _ fl HF Hf1), Hbot, Hmeta. done.
  - assert (files (getFile file σ).2 !! file = Some (set_FilePath (FilePath f) fl))
      as Hf1 by (rewrite Hfiles; apply lookup_insert_eq).
    split.
    + symmetry.
      by apply (GetFile_outcome_stateless file file σ _ fl
                  (set_FilePath (FilePath f) fl)).
    + rewrite (GetFile_files_stateless file _ _ HF Hf1), Hbot. simpl.
      rewrite Hmeta. simpl. rewrite Hfiles. apply insert_insert_eq.
Qed.

(** X9: with collaborators that answer from their arguments alone,
    resolutions of two different references do not interfere: each
    returns the same result whichever comes first, and both orders leave
    the same [File] objects. *)
Theorem GetFile_distinct_references_commute a b σ fa fb :
  let a_first := GetFile FileByID parseURL Do wrapError a σ in
  let b_second := GetFile FileByID parseURL Do wrapError b a_first.2 in
  let b_first := GetFile FileByID parseURL Do wrapError b σ in
  let a_second := GetFile FileByID parseURL Do wrapError a b_first.2 in
  stateless_FileByID FileByID → stateless_Do Do →
  a ≠ b →
  files σ !! a = Some fa → files σ !! b = Some fb →
  a_second.1 = a_first.1 ∧ b_second.1 = b_first.1 ∧
  files b_second.2 = files a_second.2.
Proof.
  cbv zeta. intros HF HD Hab Ha Hb.
  pose proof (GetFile_bot FileByID parseURL Do wrapError a σ) as Hbota.
  pose proof (GetFile_bot FileByID parseURL Do wrapError b σ) as Hbotb.
  pose proof (GetFile_files_stateless a σ fa HF Ha) as Hfa.
  pose proof (GetFile_files_stateless b σ fb HF Hb) as Hfb.
  assert (files (getFile a σ).2 !! b = Some fb) as Hb'.
  { rewrite Hfa. destruct (FileByID [] (bot σ) (FileID fa)).2; [done |].
    by rewrite lookup_insert_ne. }
  assert (files (getFile b σ).2 !! a = Some fa) as Ha'.
  { rewrite Hfb. destruct (FileByID [] (bot σ) (FileID fb)).2; [done |].
    by rewrite lookup_insert_ne. }
  split; [| split].
  - symmetry. by apply (GetFile_outcome_stateless a a σ _ fa fa).
  - symmetry. by apply (GetFile_outcome_stateless b b σ _ fb fb).
  - rewrite (GetFile_files_stateless b _ fb HF Hb'), Hbota.
    rewrite (GetFile_files_stateless a _ fa HF Ha'), Hbotb.
    rewrite Hfa, Hfb.
    destruct (FileByID [] (bot σ) (FileID fa)).2,
             (FileByID [] (bot σ) (FileID fb)).2; try done.
    by apply insert_insert_ne.
Qed.

End GetFileCalls.

(** *** The same on concrete references *)

Lemma stateless_FileByID_ok : stateless_FileByID FileByID_ok.
Proof. intros h h' b fileID. reflexivity. Qed.

Lemma stateless_FileByID_any : stateless_FileByID FileByID_any.
Proof. intros h h' b fileID. reflexivity. Qed.

Lemma stateless_Do_ok : stateless_Do Do_ok.
Proof. intros h h' req. reflexivity. Qed.

Lemma GetFile_stream_xor_error_witness :
  (∀ e, wrapError_telebot (Some e) ≠ None) ∧
  (is_Some (Some 7%nat) ∧ @None error = None
   ∨ Some 7%nat = None ∧ is_Some (@None error)).
Proof.
  split; [intros e; discriminate |].
  apply (GetFile_stream_xor_error FileByID_ok parseURL_ok Do_ok
           wrapError_telebot 1%positive st0 (Some 7%nat) None).
  - intros e. discriminate.
  - reflexivity.
Defined.

Lemma GetFile_returns_stream_iff_witness :
  files st0 !! 1%positive = Some photo ∧
  ∃ err, (GetFile FileByID_ok parseURL_ok Do_ok wrapError_telebot 1%positive
            st0).1 = Return (Some 7%nat) err.
Proof.
  split; [reflexivity |].
  apply (GetFile_returns_stream_iff FileByID_ok parseURL_ok Do_ok
           wrapError_telebot 1%positive st0 photo 7%nat); [reflexivity |].
  split; [reflexivity |]. split; [reflexivity |].
  exists {| Status := "200 OK"; StatusCode := 200; Body := 7%nat |}.
  repeat split; reflexivity.
Defined.

Lemma GetFile_returned_stream_open_witness :
  (GetFile FileByID_ok parseURL_ok Do_ok wrapError_telebot 1%positive st0).1
  = Return (Some 7%nat) None ∧
  ∀ body,
    CallClose body
    ∉ new_events st0
        (GetFile FileByID_ok parseURL_ok Do_ok wrapError_telebot 1%positive
           st0).2.
Proof.
  split; [reflexivity |].
  apply (GetFile_returned_stream_open FileByID_ok parseURL_ok Do_ok
           wrapError_telebot 1%positive st0 photo 7%nat None); reflexivity.
Defined.

Lemma GetFile_new_events_shape_witness :
  files st0 !! 1%positive = Some photo ∧
  io (GetFile FileByID_ok parseURL_ok Do_not_found wrapError_telebot
        1%positive st0).2
  = io st0
    ++ new_events st0
         (GetFile FileByID_ok parseURL_ok Do_not_found wrapError_telebot
            1%positive st0).2.
Proof.
  split; [reflexivity |].
  apply (GetFile_new_events_shape FileByID_ok parseURL_ok Do_not_found
           wrapError_telebot 1%positive st0 photo).
  reflexivity.
Defined.

Lemma GetFile_request_iff_witness :
  files st0 !! 1%positive = Some photo ∧
  ∃ r, CallDo r
       ∈ new_events st0
           (GetFile FileByID_ok parseURL_ok Do_refused wrapError_telebot
              1%positive st0).2.
Proof.
  split; [reflexivity |].
  apply (GetFile_request_iff FileByID_ok parseURL_ok Do_refused
           wrapError_telebot 1%positive st0 photo); [reflexivity |].
  split; reflexivity.
Defined.

Lemma GetFile_request_matches_saved_path_witness :
  ∃ fl',
    files (GetFile FileByID_ok parseURL_ok Do_not_found wrapError_telebot
             1%positive st0).2 !! 1%positive = Some fl' ∧
    {| Method := "GET";
       Request_URL :=
         "https://api.telegram.org/file/botTOKEN_HERE/photos/AgADBA" |}
    = {| Method := MethodGet;
         Request_URL := file_endpoint telegram_bot (FilePath fl') |}.
Proof.
  apply (GetFile_request_matches_saved_path FileByID_ok parseURL_ok
           Do_not_found wrapError_telebot 1%positive st0 photo);
    [reflexivity |].
  right. left.
Defined.

Lemma GetFile_twice_same_result_witness :
  stateless_FileByID FileByID_ok ∧ stateless_Do Do_ok ∧
  files st0 !! 1%positive = Some photo ∧
  (GetFile FileByID_ok parseURL_ok Do_ok wrapError_telebot 1%positive
     (GetFile FileByID_ok parseURL_ok Do_ok wrapError_telebot 1%positive
        st0).2).1
  = (GetFile FileByID_ok parseURL_ok Do_ok wrapError_telebot 1%positive st0).1.
Proof.
  split; [exact stateless_FileByID_ok |]. split; [exact stateless_Do_ok |].
  split; [reflexivity |].
  apply (GetFile_twice_same_result FileByID_ok parseURL_ok Do_ok
           wrapError_telebot 1%positive st0 photo stateless_FileByID_ok
           stateless_Do_ok).
  reflexivity.
Defined.

Lemma GetFile_distinct_references_commute_witness :
  stateless_FileByID FileByID_any ∧ stateless_Do Do_ok ∧
  1%positive ≠ 2%positive ∧
  files st0 !! 1%positive = Some photo ∧
  files st0 !! 2%positive = Some local_file ∧
  files (GetFile FileByID_any parseURL_ok Do_ok wrapError_telebot 2%positive
           (GetFile FileByID_any parseURL_ok Do_ok wrapError_telebot
              1%positive st0).2).2
  = files (GetFile FileByID_any parseURL_ok Do_ok wrapError_telebot 1%positive
             (GetFile FileByID_any parseURL_ok Do_ok wrapError_telebot
                2%positive st0).2).2.
Proof.
  split; [exact stateless_FileByID_any |]. split; [exact stateless_Do_ok |].
  split; [discriminate |]. split; [reflexivity |]. split; [reflexivity |].
  apply (GetFile_distinct_references_commute FileByID_any parseURL_ok Do_ok
           wrapError_telebot 1%positive 2%positive st0 photo local_file
           stateless_FileByID_any stateless_Do_ok); [discriminate | |];
    reflexivity.
Defined.

